(** * Smart search bar: filter tree, evaluator and assembly state machine

    A shallow embedding of [src/App.tsx] (compare, evaluate, applyFilter) and
    of [src/components/SmartSearchBar.tsx] (getOps, useOptions, the chip
    assembly handlers), together with the part of the JavaScript platform
    those functions call: string methods, the Number and String coercions on
    primitive values, and Date construction from a string. *)

From Stdlib Require Import ZArith String Ascii List Bool Lia DecimalString Floats.SpecFloat.
From stdpp Require Import gmap strings list.

Open Scope Z_scope.

(** ** The JavaScript platform

    Strings are sequences of code units; the embedding represents the code
    units below 256 (one [ascii] each).  Numbers are IEEE 754 binary64
    values, as [spec_float] at precision 53 and maximal exponent 1024. *)
Module JS.

(** *** Strings *)

Definition code (c : ascii) : Z := Z.of_N (N_of_ascii c).

Definition chr (z : Z) : ascii := ascii_of_N (Z.to_N z).

Definition in_range (lo hi : Z) (c : ascii) : bool :=
  (lo <=? code c) && (code c <=? hi).

Definition is_digit (c : ascii) : bool := in_range 48 57 c.

(** Code units that have a lower-case mapping: A-Z and, in the Latin-1
    supplement, U+00C0..U+00DE without the multiplication sign U+00D7. *)
Definition has_lower (c : ascii) : bool :=
  in_range 65 90 c || (in_range 192 222 c && negb (code c =? 215)).

Definition lower_char (c : ascii) : ascii :=
  if has_lower c then chr (code c + 32) else c.

(** [String.prototype.toLowerCase], on code units below 256, where it maps
    unit by unit and keeps the length (beyond them it does not: U+0130
    becomes two units). *)
Fixpoint toLowerCase (s : string) : string :=
  match s with
  | EmptyString => EmptyString
  | String c t => String (lower_char c) (toLowerCase t)
  end.

(** [s.startsWith(p)] *)
Fixpoint startsWith (s p : string) : bool :=
  match p, s with
  | EmptyString, _ => true
  | String _ _, EmptyString => false
  | String a p', String b s' => Ascii.eqb a b && startsWith s' p'
  end.

(** [s.includes(x)] *)
Fixpoint includes (s x : string) : bool :=
  startsWith s x ||
  match s with
  | EmptyString => false
  | String _ t => includes t x
  end.

(** WhiteSpace and LineTerminator code units: TAB, LF, VT, FF, CR, SP and
    NBSP (the others lie above 255). *)
Definition is_space (c : ascii) : bool :=
  in_range 9 13 c || (code c =? 32) || (code c =? 160).

Fixpoint trimStart (s : string) : string :=
  match s with
  | EmptyString => EmptyString
  | String c t => if is_space c then trimStart t else s
  end.

Fixpoint trimEnd (s : string) : string :=
  match s with
  | EmptyString => EmptyString
  | String c t =>
      match trimEnd t with
      | EmptyString => if is_space c then EmptyString else String c EmptyString
      | t' => String c t'
      end
  end.

(** [String.prototype.trim] *)
Definition trim (s : string) : string := trimEnd (trimStart s).

(** Truthiness of a string: only the empty string is falsy. *)
Definition truthy (s : string) : bool :=
  match s with EmptyString => false | _ => true end.

(** *** Numbers *)

Abbreviation number := spec_float.

Definition prec : Z := 53.
Definition emax : Z := 1024.

Definition NaN : number := S754_nan.
Definition Infinity (neg : bool) : number := S754_infinity neg.

(** The Number value for an integer (rounded to nearest, ties to even). *)
Definition ofZ (z : Z) : number := binary_normalize prec emax z 0 false.

(** The Number value for [(-1)^neg * m * 10^e], correctly rounded. *)
Definition ofDecimal (neg : bool) (m e : Z) : number :=
  if m <=? 0 then S754_zero neg
  else if 0 <=? e then binary_normalize prec emax (if neg then - (m * 10 ^ e) else m * 10 ^ e) 0 neg
  else
    let '(q, e', l) := SFdiv_core_binary prec emax m 0 (10 ^ (- e)) 0 in
    binary_round_aux prec emax neg q e' l.

(** The relational operators on Numbers: false as soon as one side is NaN. *)
Definition lt (a b : number) : bool := SFltb a b.
Definition le (a b : number) : bool := SFleb a b.
Definition gt (a b : number) : bool := SFltb b a.
Definition ge (a b : number) : bool := SFleb b a.

#[global] Instance number_eq_dec : EqDecision number.
Proof. solve_decision. Defined.

(** Numeric equality [a == b] on two Numbers. *)
Definition num_eq (a b : number) : bool := SFeqb a b.

(** *** String to Number: the StringNumericLiteral grammar *)

(** Reads the longest prefix of digits accepted by [val] (which gives a
    digit's value below [radix]); returns the accumulated value, the number
    of digits read and the rest of the string. *)
Fixpoint read_digits (radix : Z) (val : ascii -> option Z) (acc n : Z) (s : string)
  : Z * Z * string :=
  match s with
  | EmptyString => (acc, n, s)
  | String c t =>
      match val c with
      | Some d => read_digits radix val (acc * radix + d) (n + 1) t
      | None => (acc, n, s)
      end
  end.

Definition dec_val (c : ascii) : option Z :=
  if is_digit c then Some (code c - 48) else None.

Definition hex_val (c : ascii) : option Z :=
  if is_digit c then Some (code c - 48)
  else if in_range 97 102 c then Some (code c - 87)
  else if in_range 65 70 c then Some (code c - 55)
  else None.

Definition oct_val (c : ascii) : option Z :=
  if in_range 48 55 c then Some (code c - 48) else None.

Definition bin_val (c : ascii) : option Z :=
  if in_range 48 49 c then Some (code c - 48) else None.

(** NonDecimalIntegerLiteral: 0x, 0o, 0b (either case) and at least one
    digit, nothing after. *)
Definition parse_radix (radix : Z) (val : ascii -> option Z) (s : string) : number :=
  match read_digits radix val 0 0 s with
  | (v, n, EmptyString) => if 0 <? n then ofZ v else NaN
  | _ => NaN
  end.

(** ExponentPart, when present: [e] or [E], an optional sign, digits. *)
Definition parse_exponent (s : string) : option (Z * string) :=
  match s with
  | String c t =>
      if (code c =? 101) || (code c =? 69) then
        let '(neg, t') :=
          match t with
          | String "+"%char u => (false, u)
          | String "-"%char u => (true, u)
          | _ => (false, t)
          end in
        let '(v, n, rest) := read_digits 10 dec_val 0 0 t' in
        if 0 <? n then Some (if neg then - v else v, rest) else None
      else Some (0, s)
  | EmptyString => Some (0, s)
  end.

(** StrUnsignedDecimalLiteral, with the sign already read. *)
Definition parse_unsigned (neg : bool) (s : string) : number :=
  if String.eqb s "Infinity" then Infinity neg
  else
    let '(i, ni, r1) := read_digits 10 dec_val 0 0 s in
    let '(m, nf, r2) :=
      match r1 with
      | String "."%char t => read_digits 10 dec_val i 0 t
      | _ => (i, 0, r1)
      end in
    if 0 <? ni + nf then
      match parse_exponent r2 with
      | Some (e, EmptyString) => ofDecimal neg m (e - nf)
      | _ => NaN
      end
    else NaN.

(** StringToNumber: white space is trimmed, the empty string is +0, what
    does not parse is NaN. *)
Definition StringToNumber (str : string) : number :=
  match trim str with
  | EmptyString => S754_zero false
  | String "0"%char (String c t) as s =>
      if (code c =? 120) || (code c =? 88) then parse_radix 16 hex_val t
      else if (code c =? 111) || (code c =? 79) then parse_radix 8 oct_val t
      else if (code c =? 98) || (code c =? 66) then parse_radix 2 bin_val t
      else parse_unsigned false s
  | String "+"%char t => parse_unsigned false t
  | String "-"%char t => parse_unsigned true t
  | s => parse_unsigned false s
  end.

(** *** Number to String: Number::toString, radix 10 *)

Definition string_of_Z (z : Z) : string :=
  NilZero.string_of_uint (N.to_uint (Z.to_N z)).

Fixpoint zeros (n : nat) : string :=
  match n with O => EmptyString | S n' => String "0"%char (zeros n') end.

Section Shortest.
(** The positive finite value [P / Q], which is the Number [x]. *)
Variables (x : number) (P Q : Z).

(** [10^j <= P / Q] *)
Definition pow10_le (j : Z) : bool :=
  if 0 <=? j then 10 ^ j * Q <=? P else Q <=? P * 10 ^ (- j).

(** Walks down from an upper estimate to the [n] with
    [10^(n-1) <= P / Q < 10^n]. *)
Fixpoint find_n (fuel : nat) (n : Z) : Z :=
  match fuel with
  | O => n
  | S f => if pow10_le (n - 1) then n else find_n f (n - 1)
  end.

Definition roundtrips (k : Z) (c : Z * Z) : bool :=
  bool_decide (ofDecimal false (fst c) (snd c - k) = x).

(** The [k]-digit decimals next to [P / Q] from below and from above;
    the one that reads back as [x], the closer one when both do, the even
    one on a tie. *)
Definition digits_at (n k : Z) : option (Z * Z) :=
  let t := n - k in
  let num := if 0 <=? t then P else P * 10 ^ (- t) in
  let den := if 0 <=? t then Q * 10 ^ t else Q in
  let s := num / den in
  let r := num mod den in
  let lo := (s, n) in
  let hi := if s + 1 <? 10 ^ k then (s + 1, n) else (10 ^ (k - 1), n + 1) in
  let lo_closer :=
    match 2 * r ?= den with Lt => true | Gt => false | Eq => Z.even s end in
  match roundtrips k lo, roundtrips k hi with
  | true, true => Some (if lo_closer then lo else hi)
  | true, false => Some lo
  | false, true => Some hi
  | false, false => None
  end.

(** The least number of digits [k] that reads back as [x], with the
    digits [s] and the exponent [n]: [(k, (s, n))]. *)
Fixpoint shortest (fuel : nat) (n k : Z) : Z * (Z * Z) :=
  match fuel with
  | O => (k, (0, n))
  | S f =>
      match digits_at n k with
      | Some c => (k, c)
      | None => shortest f n (k + 1)
      end
  end.
End Shortest.

Definition format_decimal (k s n : Z) : string :=
  let ds := string_of_Z s in
  if (k <=? n) && (n <=? 21) then ds +:+ zeros (Z.to_nat (n - k))
  else if (0 <? n) && (n <=? 21) then
    substring 0 (Z.to_nat n) ds +:+ "." +:+ substring (Z.to_nat n) (Z.to_nat (k - n)) ds
  else if (-6 <? n) && (n <=? 0) then "0." +:+ zeros (Z.to_nat (- n)) +:+ ds
  else
    let e := n - 1 in
    let ex := (if e <? 0 then "-" else "+") +:+ string_of_Z (Z.abs e) in
    if k =? 1 then ds +:+ "e" +:+ ex
    else substring 0 1 ds +:+ "." +:+ substring 1 (Z.to_nat (k - 1)) ds +:+ "e" +:+ ex.

Definition NumberToString (x : number) : string :=
  match x with
  | S754_nan => "NaN"
  | S754_zero _ => "0"
  | S754_infinity neg => if neg then "-Infinity" else "Infinity"
  | S754_finite neg m e =>
      let x := binary_round prec emax false m e in
      let P := if 0 <=? e then Z.pos m * 2 ^ e else Z.pos m in
      let Q := if 0 <=? e then 1 else 2 ^ (- e) in
      let b := Z.pos (digits2_pos m) + e in
      let n := find_n P Q 8 (b * 30103 / 100000 + 2) in
      let '(k, (s, n')) := shortest x P Q 17 n 1 in
      ((if neg then "-" else "") +:+ format_decimal k s n')
  end.

(** *** Primitive values and their coercions *)

(** What a record holds under a key: a primitive value ([undefined] is what
    reading an absent key gives). *)
Inductive value : Type :=
| Undefined
| Null
| Bool (b : bool)
| Str (s : string)
| Num (n : number).

(** [String(v)] *)
Definition ToString (v : value) : string :=
  match v with
  | Undefined => "undefined"
  | Null => "null"
  | Bool b => if b then "true" else "false"
  | Str s => s
  | Num n => NumberToString n
  end.

(** [Number(v)] *)
Definition ToNumber (v : value) : number :=
  match v with
  | Undefined => NaN
  | Null => S754_zero false
  | Bool b => if b then ofZ 1 else S754_zero false
  | Str s => StringToNumber s
  | Num n => n
  end.

(** *** Dates *)

Definition msPerDay : Z := 86400000.

Definition DayFromYear (y : Z) : Z :=
  365 * (y - 1970) + (y - 1969) / 4 - (y - 1901) / 100 + (y - 1601) / 400.

Definition InLeapYear (y : Z) : bool :=
  ((y mod 4 =? 0) && negb (y mod 100 =? 0)) || (y mod 400 =? 0).

(** Days of the year before the first of month [m] (1 to 12). *)
Definition days_before_month (leap : bool) (m : Z) : Z :=
  let l := if leap then 1 else 0 in
  if m =? 1 then 0 else if m =? 2 then 31
  else if m =? 3 then 59 + l else if m =? 4 then 90 + l
  else if m =? 5 then 120 + l else if m =? 6 then 151 + l
  else if m =? 7 then 181 + l else if m =? 8 then 212 + l
  else if m =? 9 then 243 + l else if m =? 10 then 273 + l
  else if m =? 11 then 304 + l else 334 + l.

(** MakeDay for a month in 1..12; a day beyond the month's length runs over
    into the next month. *)
Definition MakeDay (y m d : Z) : Z :=
  DayFromYear y + days_before_month (InLeapYear y) m + d - 1.

(** The test of [/^\d{4}-\d{2}-\d{2}$/]. *)
Definition test_date (s : string) : bool :=
  match list_ascii_of_string s with
  | [y1; y2; y3; y4; h1; m1; m2; h2; d1; d2] =>
      forallb is_digit [y1; y2; y3; y4; m1; m2; d1; d2]
      && (code h1 =? 45) && (code h2 =? 45)
  | _ => false
  end.

Definition digit (c : ascii) : Z := code c - 48.

(** [Date.parse] on the date-only form [YYYY-MM-DD], which is read as UTC
    midnight: the month has to be 01 to 12 and the day 01 to 31 (a day past
    the end of a shorter month is carried into the next month, as V8 does),
    otherwise the result is NaN.  The other forms [Date.parse] reads are not
    represented: [evaluate] constructs dates only from strings of this shape.
    V8 hands a string of this shape that is out of range to its older reader,
    which reads one whose first number is 0001 to 0012 as month, day and year
    in local time; the result here is NaN for them. *)
Definition DateParse (s : string) : number :=
  match list_ascii_of_string s with
  | [y1; y2; y3; y4; h1; m1; m2; h2; d1; d2] =>
      if test_date s then
        let y := digit y1 * 1000 + digit y2 * 100 + digit y3 * 10 + digit y4 in
        let m := digit m1 * 10 + digit m2 in
        let d := digit d1 * 10 + digit d2 in
        if (1 <=? m) && (m <=? 12) && (1 <=? d) && (d <=? 31)
        then ofZ (MakeDay y m d * msPerDay)
        else NaN
      else NaN
  | _ => NaN
  end.

(** The integer a finite Number truncates to. *)
Definition truncate (x : number) : Z :=
  match x with
  | S754_finite neg m e =>
      let a := if 0 <=? e then Z.pos m * 2 ^ e else Z.pos m / 2 ^ (- e) in
      if neg then - a else a
  | _ => 0
  end.

Definition TimeClip (t : number) : number :=
  match t with
  | S754_nan | S754_infinity _ => NaN
  | _ => let z := truncate t in
         if 8640000000000000 <? Z.abs z then NaN else ofZ z
  end.

(** [new Date(v).getTime()] *)
Definition DateTime (v : value) : number :=
  TimeClip (match v with Str s => DateParse s | _ => ToNumber v end).

(** *** The string methods of the input handler *)

(** [s.split(/\s+/)[0]]: the code units before the first white space. *)
Fixpoint firstPart (s : string) : string :=
  match s with
  | EmptyString => EmptyString
  | String c t => if is_space c then EmptyString else String c (firstPart t)
  end.

(** [s.indexOf(x)], -1 when [x] does not occur. *)
Fixpoint indexOf (s x : string) : Z :=
  if startsWith s x then 0
  else match s with
       | EmptyString => -1
       | String _ t => let i := indexOf t x in if i <? 0 then -1 else i + 1
       end.

Fixpoint drop_chars (n : nat) (s : string) : string :=
  match n, s with
  | O, _ => s
  | S _, EmptyString => EmptyString
  | S n', String _ t => drop_chars n' t
  end.

(** [s.slice(start)]; a negative start counts from the end. *)
Definition slice (s : string) (start : Z) : string :=
  let len := Z.of_nat (String.length s) in
  drop_chars (Z.to_nat (if start <? 0 then Z.max (len + start) 0 else start)) s.

End JS.

Import JS.

(** ** src/components/SmartSearchBar.tsx *)
Module SmartSearchBar.

Inductive FieldType : Type :=
| TString | TNumber | TDate | TEnum | TBoolean | TRelation.

(** An option source is an array of strings or a function from the query to
    a promise.  Two sources are the same dependency of an effect when they
    are the same object, which [src_ref] stands for. *)
Inductive OptionSource : Type :=
| StaticOptions (src_ref : nat) (opts : list string)
| AsyncOptions (src_ref : nat).

Record FieldSchema : Type := {
  label : string;
  type : FieldType;
  options : option OptionSource
}.

(** The schema object, as its entries in the order of [Object.keys]. *)
Definition Schema : Type := list (string * FieldSchema).

Inductive Combinator : Type := And | Or.

#[local] Set Warnings "-register-all".
Inductive AstNode : Type :=
| Condition (field op value : string)
| Group (op : Combinator) (children : list AstNode).

Definition STRING_OPS : list string := ["contains"; "="; "!="].
Definition NUMBER_OPS : list string := ["="; "!="; ">"; ">="; "<"; "<="].
Definition DATE_OPS : list string := NUMBER_OPS.
Definition ENUM_OPS : list string := ["="; "!="].
Definition BOOL_OPS : list string := ["="; "!="].

Definition getOps (type : FieldType) : list string :=
  match type with
  | TString => STRING_OPS
  | TNumber => NUMBER_OPS
  | TDate => DATE_OPS
  | TEnum | TRelation => ENUM_OPS
  | TBoolean => BOOL_OPS
  end.

Definition isAsyncOptions (src : option OptionSource) : bool :=
  match src with Some (AsyncOptions _) => true | _ => false end.

(** *** useOptions

    The hook keeps the state [options] and an effect with the dependencies
    [src, query].  Every run of the effect has its own [alive] flag, which
    its cleanup clears, and for an asynchronous source a promise that is
    settled later, in any order.  [Render] is a render of the component with
    the hook's arguments, followed by its effects; [Resolve i result] is the
    promise of the [i]-th run of the effect being fulfilled with [result]. *)

Record Run : Type := {
  run_query : string;
  alive : bool;
  awaiting : bool
}.

Record Hook : Type := {
  hook_options : list string;
  deps : option (option OptionSource * string);
  runs : list Run
}.

Inductive HookEvent : Type :=
| Render (src : option OptionSource) (query : string)
| Resolve (i : nat) (result : list string)
| Unmount.

Definition same_source (a b : option OptionSource) : bool :=
  match a, b with
  | None, None => true
  | Some (StaticOptions r _), Some (StaticOptions r' _) => Nat.eqb r r'
  | Some (AsyncOptions r), Some (AsyncOptions r') => Nat.eqb r r'
  | _, _ => false
  end.

Definition same_deps (d : option (option OptionSource * string))
    (src : option OptionSource) (query : string) : bool :=
  match d with
  | Some (src', query') => same_source src' src && String.eqb query' query
  | None => false
  end.

Definition kill (r : Run) : Run :=
  {| run_query := run_query r; alive := false; awaiting := awaiting r |}.

Definition settle (r : Run) : Run :=
  {| run_query := run_query r; alive := alive r; awaiting := false |}.

(** The cleanup of the effect that ran last: [alive = false]. *)
Definition cleanup (rs : list Run) : list Run :=
  match rs with
  | [] => []
  | _ => alter kill (pred (length rs)) rs
  end.

(** The body of the effect, up to its first [await]. *)
Definition effect (src : option OptionSource) (query : string) (h : Hook) : Hook :=
  let rs := cleanup (runs h) in
  match src with
  | None =>
      {| hook_options := []; deps := Some (src, query);
         runs := rs ++ [{| run_query := query; alive := true; awaiting := false |}] |}
  | Some (AsyncOptions _) =>
      {| hook_options := hook_options h; deps := Some (src, query);
         runs := rs ++ [{| run_query := query; alive := true; awaiting := true |}] |}
  | Some (StaticOptions _ opts) =>
      let q := toLowerCase query in
      {| hook_options := List.filter (fun o => includes (toLowerCase o) q) opts;
         deps := Some (src, query);
         runs := rs ++ [{| run_query := query; alive := true; awaiting := false |}] |}
  end.

Definition useOptions (ev : HookEvent) (h : Hook) : Hook :=
  match ev with
  | Render src query =>
      if same_deps (deps h) src query then h else effect src query h
  | Resolve i result =>
      match runs h !! i with
      | Some r =>
          if awaiting r then
            {| hook_options := if alive r then result else hook_options h;
               deps := deps h;
               runs := alter settle i (runs h) |}
          else h
      | None => h
      end
  | Unmount =>
      {| hook_options := hook_options h; deps := None; runs := cleanup (runs h) |}
  end.

Definition mount : Hook := {| hook_options := []; deps := None; runs := [] |}.

(** The hook after a sequence of events, oldest first. *)
Definition useOptions_trace (evs : list HookEvent) (h : Hook) : Hook :=
  fold_left (fun h ev => useOptions ev h) evs h.

(** *** The component's state and its handlers *)

Record State : Type := {
  text : string;
  chips : list AstNode;
  activeField : option string;
  activeOp : option string;
  valueDraft : string;
  menuIndex : Z;
  showSuggestions : bool
}.

Definition initial : State :=
  {| text := ""; chips := []; activeField := None; activeOp := None;
     valueDraft := ""; menuIndex := 0; showSuggestions := false |}.

(** Truthiness of a [string | null]. *)
Definition is_set (o : option string) : bool :=
  match o with Some s => truthy s | None => false end.

Record Suggestion : Type := { id : string; sg_label : string }.

Definition resetDraft (st : State) : State :=
  {| text := text st; chips := chips st; activeField := None; activeOp := None;
     valueDraft := ""; menuIndex := 0; showSuggestions := showSuggestions st |}.

Definition commitCondition (fieldName op value : string) (st : State) : State :=
  let node := Condition fieldName op value in
  {| text := ""; chips := chips st ++ [node]; activeField := None; activeOp := None;
     valueDraft := ""; menuIndex := 0; showSuggestions := false |}.

Section Rendered.
(** One render: the props, the state and what [useOptions] returned. *)
Variables (schema : Schema) (hook_opts : list string) (st : State).

Definition lookup_field (key : string) : option FieldSchema :=
  snd <$> List.find (fun kv => String.eqb (fst kv) key) schema.

Definition fields : list string := List.map fst schema.

Definition field : option FieldSchema :=
  match activeField st with
  | Some f => if truthy f then lookup_field f else None
  | None => None
  end.

Definition ops : list string :=
  match field with Some f => getOps (type f) | None => [] end.

Definition includes_str (l : list string) (x : string) : bool :=
  existsb (String.eqb x) l.

Definition fieldSuggestions : list Suggestion :=
  if negb (is_set (activeField st)) && (0 <? Z.of_nat (String.length (text st))) then
    List.map (fun f => {| id := f;
                          sg_label := match lookup_field f with
                                      | Some fs => label fs
                                      | None => "undefined"
                                      end |})
      (List.filter (fun f => includes (toLowerCase f) (toLowerCase (text st))) fields)
  else [].

Definition opSuggestions : list Suggestion :=
  if is_set (activeField st) && negb (is_set (activeOp st)) then
    List.map (fun o => {| id := o; sg_label := o |})
      (List.filter (fun o => (Z.of_nat (String.length (text st)) =? 0) || startsWith o (text st)) ops)
  else [].

Definition valueSuggestions : list Suggestion :=
  if is_set (activeField st) &&
     match type <$> field with
     | Some TEnum | Some TRelation | Some TBoolean => true
     | _ => false
     end
  then List.map (fun o => {| id := o; sg_label := o |}) hook_opts
  else [].

Definition suggestions : list Suggestion :=
  if is_set (activeField st) then
    if is_set (activeOp st) then valueSuggestions else opSuggestions
  else fieldSuggestions.

(** [suggestions[menuIndex]?.id || text] *)
Definition chosen : string :=
  let picked :=
    if menuIndex st <? 0 then None
    else id <$> (suggestions !! Z.to_nat (menuIndex st)) in
  match picked with
  | Some s => if truthy s then s else text st
  | None => text st
  end.

Definition with_menuIndex (i : Z) : State :=
  {| text := text st; chips := chips st; activeField := activeField st;
     activeOp := activeOp st; valueDraft := valueDraft st; menuIndex := i;
     showSuggestions := showSuggestions st |}.

(** The body of [if (e.key === 'Enter')]: the state it returns with, or
    [None] when it falls through. *)
Definition onEnter : option State :=
  if negb (is_set (activeField st)) then
    if includes_str fields chosen then
      Some {| text := ""; chips := chips st; activeField := Some chosen;
              activeOp := activeOp st; valueDraft := valueDraft st; menuIndex := 0;
              showSuggestions := showSuggestions st |}
    else None
  else if negb (is_set (activeOp st)) then
    if includes_str ops chosen then
      Some {| text := ""; chips := chips st; activeField := activeField st;
              activeOp := Some chosen; valueDraft := valueDraft st; menuIndex := 0;
              showSuggestions := showSuggestions st |}
    else None
  else
    let f := default "" (activeField st) in
    let o := default "" (activeOp st) in
    if negb (Z.of_nat (length valueSuggestions) =? 0) then
      Some (commitCondition f o chosen st)
    else
      let valueToUse :=
        if truthy (trim (text st)) then trim (text st) else trim (valueDraft st) in
      if truthy valueToUse then Some (commitCondition f o valueToUse st) else None.

Definition handleKeyDown (key : string) : State :=
  let n := Z.of_nat (length suggestions) in
  if negb (n =? 0) && (String.eqb key "ArrowDown" || String.eqb key "ArrowUp") then
    let next := if String.eqb key "ArrowDown" then menuIndex st + 1 else menuIndex st - 1 in
    with_menuIndex (Z.rem (next + n) n)
  else
    match (if String.eqb key "Enter" then onEnter else None) with
    | Some st' => st'
    | None => if String.eqb key "Escape" then resetDraft st else st
    end.

End Rendered.

(** [prev.filter((_, i) => i !== idx)], on the elements from index [i] on. *)
Fixpoint filter_index {A : Type} (keep : Z -> bool) (i : Z) (l : list A) : list A :=
  match l with
  | [] => []
  | x :: t =>
      if keep i then x :: filter_index keep (i + 1) t
      else filter_index keep (i + 1) t
  end.

Definition removeChip (idx : Z) (st : State) : State :=
  {| text := text st;
     chips := filter_index (fun i => negb (i =? idx)) 0 (chips st);
     activeField := activeField st; activeOp := activeOp st;
     valueDraft := valueDraft st; menuIndex := menuIndex st;
     showSuggestions := showSuggestions st |}.

(** The group the component publishes through [onChange]. *)
Definition published (st : State) : option AstNode :=
  match chips st with
  | [] => None
  | cs => Some (Group And cs)
  end.

(** *** The handlers written in the markup *)

Section Handlers.
Variables (schema : Schema) (hook_opts : list string) (st : State).

(** The map from lower-cased labels and keys to keys; a later field
    overwrites an earlier one. *)
Definition labelToField : gmap string string :=
  fold_left
    (fun map key =>
       match lookup_field schema key with
       | Some fs => <[toLowerCase key := key]> (<[toLowerCase (label fs) := key]> map)
       | None => map
       end)
    (fields schema) ∅.

(** [onChange] of the main input. *)
Definition onChange (v : string) : State :=
  let typed :=
    {| text := v; chips := chips st; activeField := activeField st;
       activeOp := activeOp st; valueDraft := valueDraft st; menuIndex := menuIndex st;
       showSuggestions := true |} in
  if negb (is_set (activeField st)) then
    let maybe := toLowerCase (firstPart (trimStart v)) in
    let matchedField := if truthy maybe then labelToField !! maybe else None in
    match matchedField with
    | Some m =>
        if truthy m then
          let rest :=
            trimStart (slice v (indexOf (toLowerCase v) maybe
                                + Z.of_nat (String.length maybe))) in
          {| text := rest; chips := chips st; activeField := Some m;
             activeOp := activeOp st; valueDraft := valueDraft st;
             menuIndex := menuIndex st; showSuggestions := true |}
        else typed
    | None => typed
    end
  else typed.

(** [onChange] of the input of the chip being drafted. *)
Definition onDraftChange (v : string) : State :=
  {| text := text st; chips := chips st; activeField := activeField st;
     activeOp := activeOp st; valueDraft := v; menuIndex := menuIndex st;
     showSuggestions := showSuggestions st |}.

(** [onMouseDown] of a suggestion. *)
Definition onSuggestionMouseDown (s : Suggestion) : State :=
  if negb (is_set (activeField st)) then
    {| text := ""; chips := chips st; activeField := Some (id s);
       activeOp := activeOp st; valueDraft := valueDraft st; menuIndex := 0;
       showSuggestions := true |}
  else if negb (is_set (activeOp st)) then
    {| text := ""; chips := chips st; activeField := activeField st;
       activeOp := Some (id s); valueDraft := valueDraft st; menuIndex := 0;
       showSuggestions := true |}
  else commitCondition (default "" (activeField st)) (default "" (activeOp st)) (id s) st.

(** [onClick] of the operator of a chip. *)
Definition onOperatorClick (chip : AstNode) : State :=
  {| text := ""; chips := chips st;
     activeField := match chip with Condition f _ _ => Some f | Group _ _ => None end;
     activeOp := None; valueDraft := valueDraft st; menuIndex := 0;
     showSuggestions := true |}.

(** [onClick] of the Clear button. *)
Definition onClear : State :=
  {| text := ""; chips := []; activeField := None; activeOp := None;
     valueDraft := ""; menuIndex := 0; showSuggestions := showSuggestions st |}.

Definition with_showSuggestions (b : bool) : State :=
  {| text := text st; chips := chips st; activeField := activeField st;
     activeOp := activeOp st; valueDraft := valueDraft st; menuIndex := menuIndex st;
     showSuggestions := b |}.

(** What the user can do to what is on the screen.  A suggestion, a chip
    or a button can be acted on only where the markup renders it. *)
Inductive Event : Type :=
| KeyDown (key : string)
| Change (v : string)
| DraftChange (v : string)
| SuggestionMouseDown (i : nat)
| OperatorClick (i : nat)
| RemoveClick (i : nat)
| ClearClick
| Focus
| BlurTimeout.

Definition dispatch (ev : Event) : State :=
  match ev with
  | KeyDown key => handleKeyDown schema hook_opts st key
  | Change v => onChange v
  | DraftChange v =>
      if is_set (activeField st) && is_set (activeOp st)
         && (Z.of_nat (length (valueSuggestions schema hook_opts st)) =? 0)
      then onDraftChange v else st
  | SuggestionMouseDown i =>
      if showSuggestions st then
        match suggestions schema hook_opts st !! i with
        | Some s => onSuggestionMouseDown s
        | None => st
        end
      else st
  | OperatorClick i =>
      match chips st !! i with
      | Some chip => onOperatorClick chip
      | None => st
      end
  | RemoveClick i =>
      match chips st !! i with
      | Some _ => removeChip (Z.of_nat i) st
      | None => st
      end
  | ClearClick =>
      if negb (Z.of_nat (length (chips st)) =? 0) || is_set (activeField st)
      then onClear else st
  | Focus => with_showSuggestions true
  | BlurTimeout => with_showSuggestions false
  end.

End Handlers.

(** The component after a sequence of events, oldest first; each event
    comes with the options [useOptions] returned to the render it acts on. *)
Definition dispatch_all (schema : Schema) (evs : list (list string * Event))
    (st : State) : State :=
  fold_left (fun st oe => dispatch schema (fst oe) st (snd oe)) evs st.

End SmartSearchBar.

(** ** src/App.tsx *)
Module App.
Import SmartSearchBar.

(** A row: an object read as a map from keys to primitive values (a key that
    is absent reads as [undefined]). *)
Abbreviation Row := (gmap string value).

Definition get (row : Row) (key : string) : value :=
  default Undefined (row !! key).

Definition compare (operator : string) (left right : value) : bool :=
  if String.eqb operator "contains" then
    includes (toLowerCase (ToString left)) (toLowerCase (ToString right))
  else if String.eqb operator "=" then String.eqb (ToString left) (ToString right)
  else if String.eqb operator "!=" then negb (String.eqb (ToString left) (ToString right))
  else if String.eqb operator ">" then gt (ToNumber left) (ToNumber right)
  else if String.eqb operator ">=" then ge (ToNumber left) (ToNumber right)
  else if String.eqb operator "<" then lt (ToNumber left) (ToNumber right)
  else if String.eqb operator "<=" then le (ToNumber left) (ToNumber right)
  else false.

Fixpoint evaluate (row : Row) (node : AstNode) : bool :=
  match node with
  | Group op children =>
      let evals := List.map (evaluate row) children in
      match op with
      | And => forallb (fun b => b) evals
      | Or => existsb (fun b => b) evals
      end
  | Condition field op v =>
      let value := get row field in
      if test_date (ToString value) && test_date (ToString (Str v)) then
        compare op (Num (DateTime value)) (Num (DateTime (Str v)))
      else compare op value (Str v)
  end.

Definition applyFilter (rows : list Row) (ast : option AstNode) : list Row :=
  match ast with
  | None => rows
  | Some (Group _ children) =>
      List.filter (fun row => forallb (fun c => evaluate row c) children) rows
  | Some (Condition _ _ _) => rows
  end.

(** The rows of the demo. *)
Definition demo_row (author project date status department : string) (age : Z)
    (name : string) : Row :=
  <["author" := Str author]> (<["project" := Str project]> (<["date" := Str date]>
  (<["status" := Str status]> (<["department" := Str department]>
  (<["age" := Num (ofZ age)]> (<["name" := Str name]> ∅)))))).

Definition rows : list Row :=
  [ demo_row "Alice" "Dynamic filtering" "2025-01-04" "active" "design" 31 "Alice Johnson";
    demo_row "Bob" "Design System" "2025-02-11" "draft" "engineering" 29 "Bob Gray";
    demo_row "Carol" "Internal Tools" "2025-03-09" "archived" "ops" 41 "Carol Voss";
    demo_row "Alice" "Marketing Site" "2025-03-21" "active" "design" 35 "Alice M." ].

End App.

(** ** The interface the specification words

    The specification names three error kinds and describes [removeChild],
    [buildCondition] and the comparison of two dates in its own terms.  The
    definitions below follow those words; the theorems compare them with the
    functions of the source. *)
Module Spec.
Import SmartSearchBar.

Inductive ErrorKind : Type := UnknownField | InvalidOperator | IndexOutOfRange.

(** What a call does: it returns a value or fails with an error. *)
Inductive outcome (A : Type) : Type :=
| Returns (a : A)
| Fails (e : ErrorKind).
Arguments Returns {A} a.
Arguments Fails {A} e.

Definition in_bounds {A : Type} (index : Z) (children : list A) : bool :=
  (0 <=? index) && (index <? Z.of_nat (length children)).

(** "removes the child at index; fails with IndexOutOfRange if index is not
    within [0, children.length)" *)
Definition removeChild (children : list AstNode) (index : Z) : outcome (list AstNode) :=
  if in_bounds index children
  then Returns (take (Z.to_nat index) children ++ drop (S (Z.to_nat index)) children)
  else Fails IndexOutOfRange.

(** "fails if operator is not in the allowed set for field's type" *)
Definition buildCondition (type : FieldType) (field operator rawValue : string)
  : outcome AstNode :=
  if includes_str (getOps type) operator
  then Returns (Condition field operator rawValue)
  else Fails InvalidOperator.

(** "compare using the operator's numeric semantics (epoch-millisecond
    comparison)": the comparison of two Numbers an operator stands for, for
    the operators that have one. *)
Definition numeric_semantics (operator : string) (l r : number) : option bool :=
  if String.eqb operator "=" then Some (num_eq l r)
  else if String.eqb operator "!=" then Some (negb (num_eq l r))
  else if String.eqb operator ">" then Some (gt l r)
  else if String.eqb operator ">=" then Some (ge l r)
  else if String.eqb operator "<" then Some (lt l r)
  else if String.eqb operator "<=" then Some (le l r)
  else None.

End Spec.

Import SmartSearchBar App.

(** * Vocabulary of the statements *)

Definition known_operators : list string :=
  ["contains"; "="; "!="; ">"; ">="; "<"; "<="].

Definition relational_operators : list string := [">"; ">="; "<"; "<="].

(** A group on which the two readings of a top-level or-group differ. *)
Definition age_or_design : AstNode :=
  Group Or [Condition "age" ">" "40"; Condition "department" "=" "design"].

(** A state with one chip. *)
Definition one_chip : State :=
  {| text := ""; chips := [Condition "age" ">" "30"]; activeField := None;
     activeOp := None; valueDraft := ""; menuIndex := 0; showSuggestions := false |}.

(** ** Hook states *)

(** Every run of the effect but the last one has been cleaned up. *)
Definition stale_dead (h : Hook) : Prop :=
  forall i r, runs h !! i = Some r -> (S i < length (runs h))%nat -> alive r = false.

(** The run [cur], for the dependencies [src, query], is the last one and is
    alive, its promise still pending or not as [pending] says; the earlier
    runs are dead. *)
Definition current (cur : nat) (src : option OptionSource) (query : string)
    (pending : bool) (h : Hook) : Prop :=
  deps h = Some (src, query) /\
  length (runs h) = S cur /\
  (exists r, runs h !! cur = Some r /\ alive r = true /\ awaiting r = pending) /\
  (forall i r, i < cur -> runs h !! i = Some r -> alive r = false)%nat.

(** Events that issue no lookup and do not settle the run [cur]: a render
    with the dependencies unchanged, the promise of another run settling. *)
Definition quiet (cur : nat) (src : option OptionSource) (query : string)
    (ev : HookEvent) : bool :=
  match ev with
  | Render src' query' => same_deps (Some (src, query)) src' query'
  | Resolve i _ => negb (Nat.eqb i cur)
  | Unmount => false
  end.

(** ** Assembly states *)

(** A chip whose operator is allowed for the type of its field. *)
Definition allowed_chip (schema : Schema) (c : AstNode) : bool :=
  match c with
  | Condition f o _ =>
      match lookup_field schema f with
      | Some fs => includes_str (getOps (type fs)) o
      | None => false
      end
  | Group _ _ => false
  end.

Definition chips_ok (schema : Schema) (st : State) : bool :=
  forallb (allowed_chip schema) (chips st).

(** An operator that has been chosen belongs to a chosen field and is one of
    the operators of that field's type. *)
Definition draft_ok (schema : Schema) (st : State) : bool :=
  negb (is_set (activeOp st)) ||
  (is_set (activeField st) && includes_str (ops schema st) (default "" (activeOp st))).

(** The schema of the demo, without its option sources. *)
Definition demo_schema : Schema :=
  [ ("author", {| label := "Author"; type := TEnum; options := None |});
    ("date", {| label := "Date"; type := TDate; options := None |});
    ("age", {| label := "Age"; type := TNumber; options := None |});
    ("name", {| label := "Name"; type := TString; options := None |}) ].

(** The field age and the operator > are chosen, 30 is typed. *)
Definition typing_value : State :=
  {| text := "30"; chips := []; activeField := Some "age"; activeOp := Some ">";
     valueDraft := ""; menuIndex := 0; showSuggestions := true |}.

(** The field age is chosen, no operator yet, [typed] is in the input. *)
Definition choosing_operator (typed : string) : State :=
  {| text := typed; chips := []; activeField := Some "age"; activeOp := None;
     valueDraft := ""; menuIndex := 0; showSuggestions := true |}.

(** ** Trees and rows *)

(** The fields a tree reads. *)
Fixpoint fields_of (node : AstNode) : list string :=
  match node with
  | Condition f _ _ => [f]
  | Group _ children => List.flat_map fields_of children
  end.

(** How a combinator joins two results. *)
Definition join (op : Combinator) (a b : bool) : bool :=
  match op with And => a && b | Or => a || b end.

(** A row with a name and nothing else. *)
Definition only_name : Row := <["name" := Str "Alice"]> ∅.

(** ** More hook states *)

(** No run of the effect is alive. *)
Definition all_dead (h : Hook) : Prop :=
  forall i r, runs h !! i = Some r -> alive r = false.

Definition is_resolve (ev : HookEvent) : bool :=
  match ev with Resolve _ _ => true | _ => false end.

(** ** More assembly states *)

(** A field that has been chosen is a key of the schema. *)
Definition field_ok (schema : Schema) (st : State) : bool :=
  negb (is_set (activeField st)) ||
  match lookup_field schema (default "" (activeField st)) with
  | Some _ => true
  | None => false
  end.

(** The chips, the chosen operator and the chosen field agree with the
    schema. *)
Definition respects (schema : Schema) (st : State) : bool :=
  chips_ok schema st && draft_ok schema st && field_ok schema st.

(** ** Typed text *)

(** [text.trim() || valueDraft.trim()]: the value Enter commits when no
    list of values is shown. *)
Definition valueToUse (st : State) : string :=
  if truthy (trim (text st)) then trim (text st) else trim (valueDraft st).

(** Every code unit of [s] is below 256: what holds of every string that
    can be written here, and bounds the statements about lower-casing, which
    keeps the length of such a string and of no other. *)
Definition latin1 (s : string) : bool :=
  forallb (fun c => code c <? 256) (list_ascii_of_string s).

(** No white space in [s]. *)
Definition no_space (s : string) : bool :=
  forallb (fun c => negb (is_space c)) (list_ascii_of_string s).

(** [s] is empty or begins with white space. *)
Definition at_space (s : string) : bool :=
  match s with
  | EmptyString => true
  | String c _ => is_space c
  end.

(** ** Integers and dates *)

(** An integer that a Number holds exactly. *)
Definition safe (z : Z) : Prop := Z.abs z < 2 ^ 53.

(** The day number, counted from 1 January 1970, of a string of the date
    shape with a month from 01 to 12 and a day from 01 to 31. *)
Definition day_number (s : string) : option Z :=
  match list_ascii_of_string s with
  | [y1; y2; y3; y4; h1; m1; m2; h2; d1; d2] =>
      let y := digit y1 * 1000 + digit y2 * 100 + digit y3 * 10 + digit y4 in
      let m := digit m1 * 10 + digit m2 in
      let d := digit d1 * 10 + digit d2 in
      if test_date s && ((1 <=? m) && (m <=? 12) && (1 <=? d) && (d <=? 31))
      then Some (MakeDay y m d) else None
  | _ => None
  end.

Definition month_length (leap : bool) (m : Z) : Z :=
  if m =? 2 then (if leap then 29 else 28)
  else if (m =? 4) || (m =? 6) || (m =? 9) || (m =? 11) then 30
  else 31.

(** Year, month and day of a string that is a date of the calendar. *)
Definition calendar_date (s : string) : option (Z * Z * Z) :=
  match list_ascii_of_string s with
  | [y1; y2; y3; y4; h1; m1; m2; h2; d1; d2] =>
      let y := digit y1 * 1000 + digit y2 * 100 + digit y3 * 10 + digit y4 in
      let m := digit m1 * 10 + digit m2 in
      let d := digit d1 * 10 + digit d2 in
      if test_date s &&
         ((1 <=? m) && (m <=? 12) && (1 <=? d) && (d <=? month_length (InLeapYear y) m))
      then Some (y, m, d) else None
  | _ => None
  end.

(** Earlier in the calendar: by year, then month, then day. *)
Definition before (a b : Z * Z * Z) : bool :=
  let '(y1, m1, d1) := a in
  let '(y2, m2, d2) := b in
  (y1 <? y2) || ((y1 =? y2) && ((m1 <? m2) || ((m1 =? m2) && (d1 <? d2)))).

Definition real_date (t : Z * Z * Z) : Prop :=
  let '(y, m, d) := t in
  1 <= m <= 12 /\ 1 <= d <= month_length (InLeapYear y) m.

(** The integer that a string of decimal digits writes. *)
Definition decimal (s : string) : Z :=
  fold_left (fun acc c => acc * 10 + digit c) (list_ascii_of_string s) 0.

(** A non-empty string of decimal digits. *)
Definition numeral (s : string) : bool :=
  truthy s && forallb is_digit (list_ascii_of_string s).

(** A value that is the integer [n]: as a Number, or written in digits. *)
Definition holds_integer (l : value) (n : Z) : Prop :=
  l = Num (ofZ n) \/ exists a, l = Str a /\ numeral a = true /\ decimal a = n.

(** ** Names an object inherits *)

(** The rows, the schema and the map from labels to keys are plain objects,
    read here at their own entries.  Under the names below an object that
    has no entry of its own answers with a member of [Object.prototype]; the
    statements about a read under an arbitrary name leave these names out. *)
Definition Object_prototype : list string :=
  ["constructor"; "hasOwnProperty"; "isPrototypeOf"; "propertyIsEnumerable";
   "toLocaleString"; "toString"; "valueOf"; "__proto__"; "__defineGetter__";
   "__defineSetter__"; "__lookupGetter__"; "__lookupSetter__"].

Definition inherited (name : string) : bool := includes_str Object_prototype name.

(** The field that is chosen, if any, is not such a name. *)
Definition own_active (st : State) : bool :=
  negb (inherited (default "" (activeField st))).

(** The first word of what is typed is not such a name. *)
Definition own_word (v : string) : bool :=
  negb (inherited (toLowerCase (firstPart (trimStart v)))).

Definition own_event (ev : Event) : bool :=
  match ev with Change v => own_word v | _ => true end.

(** * Properties *)

(** ** The platform on samples *)

Example StringToNumber_samples :
  List.map (fun s => NumberToString (StringToNumber s))
    ["30"; " 12 "; ""; "abc"; "12px"; "0.1"; "-12.50"; ".5"; "5."; "1e21"; "1e-7";
     "0x1F"; "-0x1F"; "Infinity"; "1e309"; "9007199254740993"; "0.30000000000000004";
     "5e-324"; "2025-01-04"] =
    ["30"; "12"; "0"; "NaN"; "NaN"; "0.1"; "-12.5"; "0.5"; "5"; "1e+21"; "1e-7";
     "31"; "NaN"; "Infinity"; "Infinity"; "9007199254740992"; "0.30000000000000004";
     "5e-324"; "NaN"].
Proof. vm_compute. reflexivity. Qed.

Example DateTime_samples :
  List.map (fun s => NumberToString (DateTime (Str s)))
    ["1970-01-01"; "2025-01-04"; "2024-02-29"; "1969-12-31"; "0000-01-01";
     "2025-13-01"; "2025-00-10"; "2025-01-32"; "2025-1-04"; "tomorrow"] =
    ["0"; "1735948800000"; "1709164800000"; "-86400000"; "-62167219200000";
     "NaN"; "NaN"; "NaN"; "NaN"; "NaN"].
Proof. vm_compute. reflexivity. Qed.

Example string_methods_samples :
  toLowerCase "Alice M." = "alice m." /\
  includes "alice johnson" "ice j" = true /\
  includes "alice" "" = true /\
  includes "alice" "bob" = false /\
  startsWith ">=" ">" = true /\
  trim "  30 " = "30".
Proof. vm_compute. repeat split. Qed.

(** The rows of the demo under age > 30 and department = design: the two
    rows of Alice, in their order. *)
Example applyFilter_demo :
  List.map (fun r => ToString (get r "name"))
    (applyFilter App.rows
       (Some (Group And [Condition "age" ">" "30"; Condition "department" "=" "design"])))
  = ["Alice Johnson"; "Alice M."].
Proof. vm_compute. reflexivity. Qed.

Example contains_ignores_case :
  evaluate (<["name" := Str "alice johnson"]> ∅) (Condition "name" "contains" "ALICE") = true.
Proof. vm_compute. reflexivity. Qed.

(** Enter takes an operator of the number field and ignores another one. *)
Example operator_gate :
  activeOp (handleKeyDown demo_schema [] (choosing_operator ">") "Enter") = Some ">" /\
  activeOp (handleKeyDown demo_schema [] (choosing_operator "contains") "Enter") = None /\
  handleKeyDown demo_schema [] (choosing_operator "contains") "Enter" =
    choosing_operator "contains".
Proof. vm_compute. repeat split. Qed.

(** ** Operators *)

(** C8: the operators allowed for each field type are those of the table:
    string has contains, = and !=; number and date have =, !=, >, >=, < and
    <=; enum, relation and boolean have = and !=. *)
Theorem getOps_table :
  getOps TString = ["contains"; "="; "!="] /\
  getOps TNumber = ["="; "!="; ">"; ">="; "<"; "<="] /\
  getOps TDate = ["="; "!="; ">"; ">="; "<"; "<="] /\
  getOps TEnum = ["="; "!="] /\
  getOps TRelation = ["="; "!="] /\
  getOps TBoolean = ["="; "!="].
Proof. repeat split. Qed.

(** ** compare *)

Lemma eqb_of_neq (a b : string) : a <> b -> String.eqb a b = false.
Proof. intros H. now apply String.eqb_neq. Qed.

Lemma compare_unknown operator left right :
  ~ In operator known_operators -> compare operator left right = false.
Proof.
  intros H. unfold compare.
  repeat match goal with
  | |- context [String.eqb operator ?k] =>
      rewrite (eqb_of_neq operator k)
        by (intros ->; apply H; unfold known_operators; simpl; tauto)
  end.
  reflexivity.
Qed.

(** Both branches of [evaluate] on a condition end in a call of [compare]
    with the same operator. *)
Lemma evaluate_condition row field op v :
  exists l r, evaluate row (Condition field op v) = compare op l r.
Proof.
  simpl. destruct (test_date _ && test_date _); eauto.
Qed.

(** C7: an operator outside contains, =, !=, >, >=, <, <= makes [compare]
    return false for every pair of operands, and so makes every condition
    evaluate to false on every row; both are total functions, nothing is
    thrown. *)
Theorem unknown_operator_false operator :
  ~ In operator known_operators ->
  (forall left right, compare operator left right = false) /\
  (forall row field v, evaluate row (Condition field operator v) = false).
Proof.
  intros H. split.
  - intros. now apply compare_unknown.
  - intros row field v.
    destruct (evaluate_condition row field operator v) as (l & r & ->).
    now apply compare_unknown.
Qed.

Lemma unknown_operator_false_witness :
  ~ In "~" known_operators /\
  compare "~" (Num (ofZ 3)) (Str "3") = false /\
  evaluate (<["age" := Num (ofZ 30)]> ∅) (Condition "age" "~" "30") = false.
Proof.
  assert (H : ~ In "~" known_operators).
  { unfold known_operators. simpl. intros H.
    repeat (destruct H as [H | H]; [discriminate H |]). exact H. }
  split; [exact H |].
  split.
  - apply (proj1 (unknown_operator_false "~" H)).
  - apply (proj2 (unknown_operator_false "~" H)).
Defined.

(** C9: on every pair of operands the != branch of [compare] is the negation
    of its = branch, and a condition with != evaluates to the negation of the
    same condition with =. *)
Theorem neq_is_negation_of_eq :
  (forall left right, compare "!=" left right = negb (compare "=" left right)) /\
  (forall row field v,
     evaluate row (Condition field "!=" v) = negb (evaluate row (Condition field "=" v))).
Proof.
  split.
  - reflexivity.
  - intros row field v. simpl.
    destruct (test_date _ && test_date _); reflexivity.
Qed.

(** ** NaN *)

Lemma gt_NaN a b : a = NaN \/ b = NaN -> gt a b = false.
Proof. intros [-> | ->]; unfold gt, SFltb; [now destruct b | now destruct a]. Qed.

Lemma ge_NaN a b : a = NaN \/ b = NaN -> ge a b = false.
Proof. intros [-> | ->]; unfold ge, SFleb; [now destruct b | now destruct a]. Qed.

Lemma lt_NaN a b : a = NaN \/ b = NaN -> lt a b = false.
Proof. intros [-> | ->]; unfold lt, SFltb; [now destruct b | now destruct a]. Qed.

Lemma le_NaN a b : a = NaN \/ b = NaN -> le a b = false.
Proof. intros [-> | ->]; unfold le, SFleb; [now destruct b | now destruct a]. Qed.

Lemma compare_NaN op left right :
  In op relational_operators ->
  ToNumber left = NaN \/ ToNumber right = NaN ->
  compare op left right = false.
Proof.
  intros Hop HN. unfold relational_operators in Hop. simpl in Hop.
  destruct Hop as [<- | [<- | [<- | [<- | []]]]]; unfold compare; simpl.
  - now apply gt_NaN.
  - now apply ge_NaN.
  - now apply lt_NaN.
  - now apply le_NaN.
Qed.

(** C6: under each of >, >=, < and <=, [compare] is false as soon as the
    numeric parse of one operand is NaN; so a condition whose two sides do
    not both have the date shape is false once one side parses to NaN, and
    the condition age op abc is false on the record whose age is 30. *)
Theorem relational_NaN_false op :
  In op relational_operators ->
  (forall left right,
     ToNumber left = NaN \/ ToNumber right = NaN -> compare op left right = false) /\
  (forall row field v,
     test_date (ToString (get row field)) && test_date v = false ->
     ToNumber (get row field) = NaN \/ StringToNumber v = NaN ->
     evaluate row (Condition field op v) = false) /\
  evaluate (<["age" := Num (ofZ 30)]> ∅) (Condition "age" op "abc") = false.
Proof.
  intros Hop. split; [| split].
  - intros. now apply compare_NaN.
  - intros row field v Hshape HN. simpl in *. rewrite Hshape.
    now apply compare_NaN.
  - unfold relational_operators in Hop. simpl in Hop.
    destruct Hop as [<- | [<- | [<- | [<- | []]]]]; vm_compute; reflexivity.
Qed.

Lemma relational_NaN_false_witness :
  In ">" relational_operators /\
  compare ">" (Num (ofZ 30)) (Str "abc") = false /\
  evaluate (<["age" := Num (ofZ 30)]> ∅) (Condition "age" ">" "abc") = false.
Proof.
  assert (H : In ">" relational_operators) by (simpl; tauto).
  split; [exact H |].
  destruct (relational_NaN_false ">" H) as (Hc & _ & He).
  split; [| exact He].
  apply Hc. right. vm_compute. reflexivity.
Defined.

(** ** Groups *)

(** C5: on every row the empty and-group evaluates to true and the empty
    or-group to false. *)
Theorem evaluate_empty_group (row : Row) :
  evaluate row (Group And []) = true /\ evaluate row (Group Or []) = false.
Proof. split; reflexivity. Qed.

Lemma existsb_map {A : Type} (f : A -> bool) (l : list A) :
  existsb (fun b => b) (List.map f l) = existsb f l.
Proof. induction l as [| a l IH]; simpl; [reflexivity | now rewrite IH]. Qed.

Lemma forallb_map {A : Type} (f : A -> bool) (l : list A) :
  forallb (fun b => b) (List.map f l) = forallb f l.
Proof. induction l as [| a l IH]; simpl; [reflexivity | now rewrite IH]. Qed.

Lemma filter_all {A : Type} (l : list A) : List.filter (fun _ => true) l = l.
Proof. induction l as [| a l IH]; simpl; [reflexivity | now rewrite IH]. Qed.

Lemma evaluate_or row children :
  evaluate row (Group Or children) = existsb (evaluate row) children.
Proof. simpl. apply existsb_map. Qed.

Lemma evaluate_and row children :
  evaluate row (Group And children) = forallb (evaluate row) children.
Proof. simpl. apply forallb_map. Qed.

(** C4: [applyFilter] keeps a row under a top-level group exactly when every
    child evaluates to true on it, whatever the combinator: an or-group
    filters as the and-group with the same children does, the empty or-group
    keeps every row, although [evaluate] itself gives an or-group the
    any-child reading (and so accepts rows that [applyFilter] drops). *)
Theorem applyFilter_ignores_combinator (rows : list Row) (children : list AstNode) :
  (forall row,
     In row (applyFilter rows (Some (Group Or children))) <->
     In row rows /\ forall c, In c children -> evaluate row c = true) /\
  applyFilter rows (Some (Group Or children)) =
    List.filter (fun row => evaluate row (Group And children)) rows /\
  applyFilter rows (Some (Group Or [])) = rows /\
  (forall row, evaluate row (Group Or children) = existsb (evaluate row) children) /\
  (forall row, evaluate row (Group Or []) = false) /\
  (exists row, In row App.rows /\ evaluate row age_or_design = true /\
               ~ In row (applyFilter App.rows (Some age_or_design))).
Proof.
  split; [| split; [| split; [| split; [| split]]]].
  - intros row. simpl. rewrite filter_In, forallb_forall. reflexivity.
  - cbn [applyFilter]. apply List.filter_ext. intros row. now rewrite evaluate_and.
  - simpl. apply filter_all.
  - intros row. apply evaluate_or.
  - reflexivity.
  - exists (demo_row "Alice" "Dynamic filtering" "2025-01-04" "active" "design" 31
              "Alice Johnson").
    split; [simpl; tauto |].
    split; [vm_compute; reflexivity |].
    assert (E : applyFilter App.rows (Some age_or_design) = []) by (vm_compute; reflexivity).
    rewrite E. intros [].
Qed.

(** ** Removing a chip *)

Lemma filter_index_remove {A : Type} (idx : Z) (l : list A) (i : Z) :
  filter_index (fun j => negb (j =? idx)) i l =
  if (i <=? idx) && (idx <? i + Z.of_nat (length l))
  then take (Z.to_nat (idx - i)) l ++ drop (S (Z.to_nat (idx - i))) l
  else l.
Proof.
  revert i. induction l as [| x l IH]; intros i.
  - cbn [filter_index]. rewrite take_nil, drop_nil. now destruct (_ && _).
  - cbn [filter_index]. rewrite IH.
    destruct (Z.eqb_spec i idx) as [-> | Hne]; cbn [negb].
    + rewrite Z.sub_diag. simpl Z.to_nat. cbn [take drop app].
      replace ((idx + 1 <=? idx) && (idx <? idx + 1 + Z.of_nat (length l))) with false
        by (symmetry; apply andb_false_iff; left; apply Z.leb_gt; lia).
      replace ((idx <=? idx) && (idx <? idx + Z.of_nat (length (x :: l)))) with true
        by (symmetry; apply andb_true_iff; split;
            [apply Z.leb_le | apply Z.ltb_lt; simpl length]; lia).
      now rewrite drop_0.
    + destruct (Z.leb_spec (i + 1) idx) as [Hle | Hgt];
        destruct (Z.ltb_spec idx (i + 1 + Z.of_nat (length l))) as [Hlt | Hge];
        cbn [andb].
      * replace ((i <=? idx) && (idx <? i + Z.of_nat (length (x :: l)))) with true
          by (symmetry; apply andb_true_iff; split;
              [apply Z.leb_le | apply Z.ltb_lt; simpl length]; lia).
        replace (Z.to_nat (idx - i)) with (S (Z.to_nat (idx - (i + 1)))) by lia.
        reflexivity.
      * replace ((i <=? idx) && (idx <? i + Z.of_nat (length (x :: l)))) with false
          by (symmetry; apply andb_false_iff; right; apply Z.ltb_ge; simpl length; lia).
        reflexivity.
      * replace ((i <=? idx) && (idx <? i + Z.of_nat (length (x :: l)))) with false
          by (symmetry; apply andb_false_iff; left; apply Z.leb_gt; lia).
        reflexivity.
      * replace ((i <=? idx) && (idx <? i + Z.of_nat (length (x :: l)))) with false
          by (symmetry; apply andb_false_iff; left; apply Z.leb_gt; lia).
        reflexivity.
Qed.

(** C1, as the code has it: [removeChip] never fails.  For an index within
    [0, children.length) it returns the children without the one at that
    index, the others in their order; for any other index it returns the
    children unchanged.  It agrees with the specification's removeChild
    exactly on the indices that are in range. *)
Theorem removeChip_total (idx : Z) (st : State) :
  chips (removeChip idx st) =
    (if Spec.in_bounds idx (chips st)
     then take (Z.to_nat idx) (chips st) ++ drop (S (Z.to_nat idx)) (chips st)
     else chips st) /\
  Spec.removeChild (chips st) idx =
    (if Spec.in_bounds idx (chips st)
     then Spec.Returns (chips (removeChip idx st))
     else Spec.Fails Spec.IndexOutOfRange).
Proof.
  assert (E : chips (removeChip idx st) =
              if Spec.in_bounds idx (chips st)
              then take (Z.to_nat idx) (chips st) ++ drop (S (Z.to_nat idx)) (chips st)
              else chips st).
  { unfold removeChip, Spec.in_bounds. cbn [chips].
    rewrite filter_index_remove. rewrite Z.sub_0_r, Z.add_0_l. reflexivity. }
  split; [exact E |].
  unfold Spec.removeChild. rewrite E.
  now destruct (Spec.in_bounds idx (chips st)).
Qed.

(** C1 as stated fails: with one chip, index 5 is out of range, the
    specification's removeChild fails with IndexOutOfRange, and [removeChip]
    returns the chips as they were. *)
Lemma removeChip_out_of_range :
  Spec.in_bounds 5 (chips one_chip) = false /\
  Spec.removeChild (chips one_chip) 5 = Spec.Fails Spec.IndexOutOfRange /\
  chips (removeChip 5 one_chip) = chips one_chip /\
  Spec.Returns (chips (removeChip 5 one_chip)) <> Spec.removeChild (chips one_chip) 5.
Proof.
  repeat split. intros H. discriminate H.
Qed.

(** ** Values of the date shape *)

(** C3, as the code has it: when the string coercion of the record's value
    and the condition's value both have the shape YYYY-MM-DD, [evaluate]
    hands the two epoch-millisecond Numbers to [compare], whatever type the
    field is declared with (no schema takes part).  Under >, >=, < and <= the
    result is the numeric comparison of the two; under = and != it is the
    equality of their string coercions; under contains it is the substring
    test on these; under any other operator it is false. *)
Theorem evaluate_date_shape (row : Row) (field op v : string) :
  test_date (ToString (get row field)) = true ->
  test_date v = true ->
  evaluate row (Condition field op v) =
    compare op (Num (DateTime (get row field))) (Num (DateTime (Str v))) /\
  (In op relational_operators ->
   Spec.numeric_semantics op (DateTime (get row field)) (DateTime (Str v)) =
     Some (evaluate row (Condition field op v))) /\
  evaluate row (Condition field "=" v) =
    String.eqb (NumberToString (DateTime (get row field))) (NumberToString (DateTime (Str v))) /\
  evaluate row (Condition field "!=" v) =
    negb (String.eqb (NumberToString (DateTime (get row field)))
                     (NumberToString (DateTime (Str v)))) /\
  evaluate row (Condition field "contains" v) =
    includes (toLowerCase (NumberToString (DateTime (get row field))))
             (toLowerCase (NumberToString (DateTime (Str v)))) /\
  (~ In op known_operators -> evaluate row (Condition field op v) = false).
Proof.
  intros Hl Hr.
  assert (E : forall o, evaluate row (Condition field o v) =
                        compare o (Num (DateTime (get row field))) (Num (DateTime (Str v)))).
  { intros o. cbn [evaluate]. cbn [ToString] in *. rewrite Hl, Hr. reflexivity. }
  split; [apply E |].
  split.
  { intros Hop. rewrite E. unfold relational_operators in Hop. simpl in Hop.
    destruct Hop as [<- | [<- | [<- | [<- | []]]]]; reflexivity. }
  split; [rewrite E; reflexivity |].
  split; [rewrite E; reflexivity |].
  split; [rewrite E; reflexivity |].
  intros Hop. rewrite E. now apply compare_unknown.
Qed.

Lemma evaluate_date_shape_witness :
  evaluate (<["x" := Str "2025-03-01"]> ∅) (Condition "x" ">" "2025-02-01") =
    compare ">" (Num (DateTime (get (<["x" := Str "2025-03-01"]> ∅) "x")))
                (Num (DateTime (Str "2025-02-01"))) /\
  evaluate (<["x" := Str "2025-03-01"]> ∅) (Condition "x" ">" "2025-02-01") = true.
Proof.
  split.
  - apply (evaluate_date_shape (<["x" := Str "2025-03-01"]> ∅) "x" ">" "2025-02-01");
      vm_compute; reflexivity.
  - vm_compute. reflexivity.
Defined.

(** C3 as stated fails under =: two strings of the date shape that are not
    dates (a month 13, a month 14) both parse to NaN; compared as Numbers
    they are not equal, yet [evaluate] answers true, because [compare] finds
    their string coercions equal. *)
Lemma invalid_dates_compare_equal :
  test_date (ToString (get (<["x" := Str "2025-13-01"]> ∅) "x")) = true /\
  test_date "2025-14-01" = true /\
  DateTime (Str "2025-13-01") = NaN /\
  DateTime (Str "2025-14-01") = NaN /\
  Spec.numeric_semantics "=" (DateTime (Str "2025-13-01")) (DateTime (Str "2025-14-01")) =
    Some false /\
  evaluate (<["x" := Str "2025-13-01"]> ∅) (Condition "x" "=" "2025-14-01") = true /\
  Some (evaluate (<["x" := Str "2025-13-01"]> ∅) (Condition "x" "=" "2025-14-01")) <>
    Spec.numeric_semantics "=" (DateTime (Str "2025-13-01")) (DateTime (Str "2025-14-01")).
Proof. repeat split; try (vm_compute; reflexivity). vm_compute. intros H. discriminate H. Qed.

(** ** useOptions *)

Lemma trace_app evs evs' h :
  useOptions_trace (evs ++ evs') h = useOptions_trace evs' (useOptions_trace evs h).
Proof. unfold useOptions_trace. apply fold_left_app. Qed.

Lemma length_cleanup rs : length (cleanup rs) = length rs.
Proof. destruct rs; [reflexivity |]. unfold cleanup. apply length_alter. Qed.

(** After the cleanup no earlier run is alive. *)
Lemma cleanup_all_dead rs i r :
  (forall j x, rs !! j = Some x -> (S j < length rs)%nat -> alive x = false) ->
  cleanup rs !! i = Some r -> alive r = false.
Proof.
  intros Hdead Hi.
  destruct rs as [| a rs]; [discriminate Hi |].
  unfold cleanup in Hi.
  destruct (decide (pred (length (a :: rs)) = i)) as [<- | Hne].
  - rewrite list_lookup_alter_eq in Hi.
    destruct ((a :: rs) !! pred (length (a :: rs))); [| discriminate Hi].
    injection Hi as <-. reflexivity.
  - rewrite list_lookup_alter_ne in Hi by exact Hne.
    apply (Hdead i r Hi).
    apply lookup_lt_Some in Hi. simpl in *. lia.
Qed.

Lemma runs_effect src query h :
  exists r, runs (effect src query h) = cleanup (runs h) ++ [r] /\
            alive r = true /\ run_query r = query /\ awaiting r = isAsyncOptions src.
Proof.
  unfold effect. destruct src as [[? ? | ?] |]; cbn [runs]; eexists; (split; [reflexivity |]);
    repeat split.
Qed.

Lemma stale_dead_step ev h : stale_dead h -> stale_dead (useOptions ev h).
Proof.
  intros Hh. destruct ev as [src query | j result |]; cbn [useOptions].
  - destruct (same_deps (deps h) src query); [exact Hh |].
    destruct (runs_effect src query h) as (r0 & E & _).
    intros i r Hi Hlt. rewrite E in Hi, Hlt.
    rewrite length_app, length_cleanup in Hlt. simpl in Hlt.
    rewrite lookup_app_l in Hi by (rewrite length_cleanup; lia).
    now apply (cleanup_all_dead (runs h) i r Hh).
  - destruct (runs h !! j) as [rj |] eqn:Hj; [| exact Hh].
    destruct (awaiting rj); [| exact Hh].
    intros i r Hi Hlt. cbn [runs] in *. rewrite length_alter in Hlt.
    destruct (decide (j = i)) as [-> | Hne].
    + rewrite list_lookup_alter_eq, Hj in Hi. injection Hi as <-.
      cbn [settle alive]. now apply (Hh i rj).
    + rewrite list_lookup_alter_ne in Hi by exact Hne. now apply (Hh i r).
  - intros i r Hi Hlt. cbn [runs] in *.
    now apply (cleanup_all_dead (runs h) i r Hh).
Qed.

(** In every state the hook reaches, only the last run can be alive. *)
Lemma stale_dead_reachable evs : stale_dead (useOptions_trace evs mount).
Proof.
  induction evs as [| ev evs IH] using rev_ind.
  - intros i r Hi. discriminate Hi.
  - rewrite trace_app. cbn. now apply stale_dead_step.
Qed.

(** A quiet event changes neither the applied options nor the current run. *)
Lemma quiet_step cur src query pending ev h :
  current cur src query pending h ->
  quiet cur src query ev = true ->
  current cur src query pending (useOptions ev h) /\
  hook_options (useOptions ev h) = hook_options h.
Proof.
  intros Hc Hq. pose proof Hc as (Hd & Hlen & (rc & Hrc & Ha & Hp) & Hold).
  destruct ev as [src' query' | j result |]; cbn [useOptions quiet] in *.
  - rewrite Hd, Hq. now split.
  - destruct (runs h !! j) as [rj |] eqn:Hj; [| now split].
    destruct (awaiting rj) eqn:Haw; [| now split].
    apply negb_true_iff, Nat.eqb_neq in Hq.
    assert (Hjlt : (j < cur)%nat) by (apply lookup_lt_Some in Hj; lia).
    rewrite (Hold j rj Hjlt Hj). cbn [hook_options]. split; [| reflexivity].
    split; [exact Hd |]. cbn [runs]. rewrite length_alter.
    split; [exact Hlen |]. split.
    + exists rc. rewrite list_lookup_alter_ne by exact Hq. now repeat split.
    + intros i r Hi Hr.
      destruct (decide (j = i)) as [-> | Hne].
      * rewrite list_lookup_alter_eq, Hj in Hr. injection Hr as <-.
        cbn [settle alive]. now apply (Hold i rj).
      * rewrite list_lookup_alter_ne in Hr by exact Hne. now apply (Hold i r).
  - discriminate Hq.
Qed.

Lemma quiet_trace cur src query pending evs h :
  current cur src query pending h ->
  forallb (quiet cur src query) evs = true ->
  current cur src query pending (useOptions_trace evs h) /\
  hook_options (useOptions_trace evs h) = hook_options h.
Proof.
  revert h. induction evs as [| ev evs IH]; intros h Hc Hq.
  - now split.
  - cbn [forallb] in Hq. apply andb_true_iff in Hq. destruct Hq as [Hev Hevs].
    destruct (quiet_step cur src query pending ev h Hc Hev) as [Hc' Ho'].
    destruct (IH (useOptions ev h) Hc' Hevs) as [Hc'' Ho''].
    change (useOptions_trace (ev :: evs) h)
      with (useOptions_trace evs (useOptions ev h)).
    split; [exact Hc'' | congruence].
Qed.

(** The promise of the current run settling applies its result. *)
Lemma resolve_current cur src query result h :
  current cur src query true h ->
  current cur src query false (useOptions (Resolve cur result) h) /\
  hook_options (useOptions (Resolve cur result) h) = result.
Proof.
  intros (Hd & Hlen & (rc & Hrc & Ha & Hp) & Hold).
  cbn [useOptions]. rewrite Hrc, Hp, Ha. cbn [hook_options]. split; [| reflexivity].
  split; [exact Hd |]. cbn [runs]. rewrite length_alter.
  split; [exact Hlen |]. split.
  - exists (settle rc). rewrite list_lookup_alter_eq, Hrc. now repeat split.
  - intros i r Hi Hr. rewrite list_lookup_alter_ne in Hr by lia. now apply (Hold i r).
Qed.

(** A render that changes the dependencies starts a run, which is the
    current one, and leaves every other run dead. *)
Lemma render_issues src query h :
  stale_dead h ->
  same_deps (deps h) src query = false ->
  current (length (runs h)) src query (isAsyncOptions src) (useOptions (Render src query) h).
Proof.
  intros Hh Hd. cbn [useOptions]. rewrite Hd.
  destruct (runs_effect src query h) as (r0 & E & Ha & _ & Hp).
  split; [now destruct src as [[? ? | ?] |] |].
  rewrite E. rewrite length_app, length_cleanup. simpl length.
  split; [lia |]. split.
  - exists r0. rewrite lookup_app_r by (rewrite length_cleanup; lia).
    rewrite length_cleanup, Nat.sub_diag. now repeat split.
  - intros i r Hi Hr.
    rewrite lookup_app_l in Hr by (rewrite length_cleanup; lia).
    now apply (cleanup_all_dead (runs h) i r Hh).
Qed.

Lemma length_runs_render src query h :
  same_deps (deps h) src query = false ->
  length (runs (useOptions (Render src query) h)) = S (length (runs h)) /\
  deps (useOptions (Render src query) h) = Some (src, query).
Proof.
  intros Hd. cbn [useOptions]. rewrite Hd.
  destruct (runs_effect src query h) as (r0 & E & _).
  rewrite E, length_app, length_cleanup. simpl length.
  split; [lia |]. now destruct src as [[? ? | ?] |].
Qed.

(** C10: from any state the hook has reached, let a lookup for [q1] be
    issued on an asynchronous source and then one for another query [q2].
    Whatever stale promises settle in the meantime, and in whatever order
    (that of [q1] included), once the promise for [q2] has settled with
    [r2] the applied options are [r2] and stay so until a new lookup is
    issued: a result that was superseded is not applied. *)
Theorem stale_result_discarded (evs mid1 mid2 : list HookEvent) (ref : nat)
    (q1 q2 : string) (r2 : list string) :
  same_deps (deps (useOptions_trace evs mount)) (Some (AsyncOptions ref)) q1 = false ->
  q1 <> q2 ->
  forallb (quiet (S (length (runs (useOptions_trace evs mount))))
                 (Some (AsyncOptions ref)) q2) mid1 = true ->
  forallb (quiet (S (length (runs (useOptions_trace evs mount))))
                 (Some (AsyncOptions ref)) q2) mid2 = true ->
  hook_options
    (useOptions_trace
       ([Render (Some (AsyncOptions ref)) q1; Render (Some (AsyncOptions ref)) q2]
        ++ mid1
        ++ [Resolve (S (length (runs (useOptions_trace evs mount)))) r2]
        ++ mid2)
       (useOptions_trace evs mount)) = r2.
Proof.
  set (h := useOptions_trace evs mount).
  set (src := Some (AsyncOptions ref)).
  intros Hd Hq Hm1 Hm2.
  assert (Hh : stale_dead h) by apply stale_dead_reachable.
  set (h1 := useOptions (Render src q1) h).
  assert (Hh1 : stale_dead h1) by now apply stale_dead_step.
  destruct (length_runs_render src q1 h Hd) as [Hl1 Hd1]. fold h1 in Hl1, Hd1.
  assert (Hd2 : same_deps (deps h1) src q2 = false).
  { rewrite Hd1. cbn [same_deps]. apply andb_false_iff. right. now apply String.eqb_neq. }
  pose proof (render_issues src q2 h1 Hh1 Hd2) as Hc. rewrite Hl1 in Hc.
  change (isAsyncOptions src) with true in Hc.
  repeat rewrite trace_app.
  change (useOptions_trace [Render src q1; Render src q2] h)
    with (useOptions (Render src q2) h1).
  destruct (quiet_trace _ _ _ _ mid1 _ Hc Hm1) as [Hc1 _].
  change (useOptions_trace [Resolve (S (length (runs h))) r2] ?x)
    with (useOptions (Resolve (S (length (runs h))) r2) x).
  destruct (resolve_current _ _ _ r2 _ Hc1) as [Hc2 Ho2].
  destruct (quiet_trace _ _ _ _ mid2 _ Hc2 Hm2) as [_ Ho3].
  congruence.
Qed.

(** The race of the specification: a lookup for a, then one for al; al's
    result arrives first, a's afterwards. *)
Lemma stale_result_discarded_witness :
  hook_options
    (useOptions_trace
       [Render (Some (AsyncOptions 0)) "a"; Render (Some (AsyncOptions 0)) "al";
        Resolve 1 ["Alice"]; Resolve 0 ["Alice"; "Carol"]]
       mount) = ["Alice"].
Proof.
  apply (stale_result_discarded [] [] [Resolve 0 ["Alice"; "Carol"]] 0%nat "a" "al" ["Alice"]).
  - reflexivity.
  - intros H. discriminate H.
  - reflexivity.
  - reflexivity.
Defined.

(** ** Committing a condition *)

Lemma forallb_snoc {A : Type} (f : A -> bool) (l : list A) (x : A) :
  forallb f (l ++ [x]) = forallb f l && f x.
Proof. rewrite forallb_app. simpl. now rewrite andb_true_r. Qed.

(** What a state with a chosen operator says about the chip it commits. *)
Lemma draft_ok_allowed schema st :
  draft_ok schema st = true ->
  is_set (activeOp st) = true ->
  forall v,
    allowed_chip schema (Condition (default "" (activeField st)) (default "" (activeOp st)) v)
    = true.
Proof.
  intros Hd Hop v. unfold draft_ok in Hd. rewrite Hop in Hd. cbn [negb orb] in Hd.
  apply andb_true_iff in Hd. destruct Hd as [Hf Hin].
  unfold ops, field in Hin. unfold is_set in Hf.
  destruct (activeField st) as [f |]; [| discriminate Hf].
  rewrite Hf in Hin. change (default "" (Some f)) with f. cbn [allowed_chip].
  destruct (lookup_field schema f) as [fs |]; [exact Hin | discriminate Hin].
Qed.

Lemma commit_ok schema f o v st :
  chips_ok schema st = true ->
  allowed_chip schema (Condition f o v) = true ->
  draft_ok schema (commitCondition f o v st) = true /\
  chips_ok schema (commitCondition f o v st) = true.
Proof.
  intros Hc Ha. split; [reflexivity |].
  unfold chips_ok, commitCondition. cbn [chips].
  rewrite forallb_snoc. unfold chips_ok in Hc. now rewrite Hc, Ha.
Qed.

Lemma escape_ok schema key st :
  draft_ok schema st = true -> chips_ok schema st = true ->
  draft_ok schema (if String.eqb key "Escape" then resetDraft st else st) = true /\
  chips_ok schema (if String.eqb key "Escape" then resetDraft st else st) = true.
Proof. intros Hd Hc. destruct (String.eqb key "Escape"); now split. Qed.

(** Whatever Enter returns with respects the table. *)
Lemma onEnter_ok schema hook_opts st st' :
  draft_ok schema st = true -> chips_ok schema st = true ->
  onEnter schema hook_opts st = Some st' ->
  draft_ok schema st' = true /\ chips_ok schema st' = true.
Proof.
  intros Hd Hc. unfold onEnter.
  destruct (is_set (activeField st)) eqn:Hf; cbn [negb].
  - destruct (is_set (activeOp st)) eqn:Ho; cbn [negb].
    + pose proof (draft_ok_allowed schema st Hd Ho) as Ha.
      destruct (negb _); [intros [= <-]; now apply commit_ok |].
      destruct (truthy (if truthy (trim (text st)) then _ else _));
        [intros [= <-]; now apply commit_ok | discriminate].
    + destruct (includes_str (ops schema st) (chosen schema hook_opts st)) eqn:Hin;
        [intros [= <-] | discriminate].
      split; [| exact Hc].
      unfold draft_ok. cbn [activeOp activeField default].
      rewrite Hf. apply orb_true_iff. right. exact Hin.
  - destruct (includes_str (fields schema) (chosen schema hook_opts st));
      [intros [= <-] | discriminate].
    split; [| exact Hc].
    unfold draft_ok in *. cbn [activeOp activeField].
    rewrite Hf in Hd. cbn [andb] in Hd. rewrite orb_false_r in Hd.
    now rewrite Hd.
Qed.

Lemma handleKeyDown_ok schema hook_opts st key :
  draft_ok schema st = true -> chips_ok schema st = true ->
  draft_ok schema (handleKeyDown schema hook_opts st key) = true /\
  chips_ok schema (handleKeyDown schema hook_opts st key) = true.
Proof.
  intros Hd Hc. unfold handleKeyDown.
  destruct (negb _ && (String.eqb key "ArrowDown" || String.eqb key "ArrowUp")).
  { now split. }
  destruct (if String.eqb key "Enter" then _ else _) as [st' |] eqn:He.
  - destruct (String.eqb key "Enter"); [| discriminate He].
    now apply (onEnter_ok schema hook_opts st st').
  - now apply escape_ok.
Qed.

(** Enter is neither an arrow nor Escape. *)
Lemma handleKeyDown_Enter schema hook_opts st :
  handleKeyDown schema hook_opts st "Enter" =
  match onEnter schema hook_opts st with Some st' => st' | None => st end.
Proof.
  unfold handleKeyDown.
  change (String.eqb "Enter" "ArrowDown") with false.
  change (String.eqb "Enter" "ArrowUp") with false.
  change (String.eqb "Enter" "Enter") with true.
  change (String.eqb "Enter" "Escape") with false.
  cbn [orb]. rewrite andb_false_r. reflexivity.
Qed.

(** Enter while an operator is to be chosen: the chosen string becomes the
    operator if the operators of the field's type include it; if not,
    nothing changes. *)
Lemma Enter_operator schema hook_opts st :
  is_set (activeField st) = true -> is_set (activeOp st) = false ->
  handleKeyDown schema hook_opts st "Enter" =
    if includes_str (ops schema st) (chosen schema hook_opts st)
    then {| text := ""; chips := chips st; activeField := activeField st;
            activeOp := Some (chosen schema hook_opts st);
            valueDraft := valueDraft st; menuIndex := 0;
            showSuggestions := showSuggestions st |}
    else st.
Proof.
  intros Hf Ho. rewrite handleKeyDown_Enter. unfold onEnter.
  rewrite Hf, Ho. cbn [negb]. now destruct (includes_str _ _).
Qed.


(** The operator after a key: the one before, none, or the chosen string,
    which Enter has found among the operators of the field's type. *)
Lemma activeOp_after schema hook_opts st key :
  activeOp (handleKeyDown schema hook_opts st key) = activeOp st \/
  activeOp (handleKeyDown schema hook_opts st key) = None \/
  (key = "Enter" /\ is_set (activeField st) = true /\ is_set (activeOp st) = false /\
   activeOp (handleKeyDown schema hook_opts st key) = Some (chosen schema hook_opts st) /\
   includes_str (ops schema st) (chosen schema hook_opts st) = true).
Proof.
  unfold handleKeyDown.
  destruct (negb _ && (String.eqb key "ArrowDown" || String.eqb key "ArrowUp")).
  { now left. }
  assert (Hesc : activeOp (if String.eqb key "Escape" then resetDraft st else st) = activeOp st \/
                 activeOp (if String.eqb key "Escape" then resetDraft st else st) = None)
    by (destruct (String.eqb key "Escape"); [now right | now left]).
  destruct (String.eqb_spec key "Enter") as [-> | Hne]; [| tauto].
  unfold onEnter.
  destruct (is_set (activeField st)) eqn:Hf; cbn [negb].
  - destruct (is_set (activeOp st)) eqn:Ho; cbn [negb].
    + destruct (negb _); [right; now left |].
      destruct (truthy _); [right; now left | now left].
    + destruct (includes_str _ _) eqn:Hin; [| now left].
      right. right. now repeat split.
  - destruct (includes_str _ _); now left.
Qed.

(** C2, as the code has it: [commitCondition] never fails, neither for the
    operator nor for the value; whatever the three strings are, it appends
    the condition made of them to the chips.  The operators of the table
    are enforced before it is called: [handleKeyDown] makes an operator the
    active one only if the operators of the active field's type include it,
    so from a state whose chips and draft respect the table every key leads
    to a state whose chips and draft respect it.  Enter with a field and no
    operator makes the chosen string the operator when the operators of the
    field's type include it, and changes nothing when they do not: the
    operator stays unset.  No key sets an operator in another way. *)
Theorem commitCondition_unchecked (schema : Schema) (hook_opts : list string)
    (st : State) (key fieldName op value : string) :
  chips (commitCondition fieldName op value st) =
    chips st ++ [Condition fieldName op value] /\
  (draft_ok schema st = true -> chips_ok schema st = true ->
   draft_ok schema (handleKeyDown schema hook_opts st key) = true /\
   chips_ok schema (handleKeyDown schema hook_opts st key) = true) /\
  (is_set (activeField st) = true -> is_set (activeOp st) = false ->
   handleKeyDown schema hook_opts st "Enter" =
     if includes_str (ops schema st) (chosen schema hook_opts st)
     then {| text := ""; chips := chips st; activeField := activeField st;
             activeOp := Some (chosen schema hook_opts st);
             valueDraft := valueDraft st; menuIndex := 0;
             showSuggestions := showSuggestions st |}
     else st) /\
  (activeOp (handleKeyDown schema hook_opts st key) = activeOp st \/
   activeOp (handleKeyDown schema hook_opts st key) = None \/
   (key = "Enter" /\ is_set (activeField st) = true /\ is_set (activeOp st) = false /\
    activeOp (handleKeyDown schema hook_opts st key) = Some (chosen schema hook_opts st) /\
    includes_str (ops schema st) (chosen schema hook_opts st) = true)).
Proof.
  split; [reflexivity |].
  split; [apply handleKeyDown_ok |].
  split; [apply Enter_operator |].
  apply activeOp_after.
Qed.

Lemma commitCondition_unchecked_witness :
  draft_ok demo_schema typing_value = true /\
  chips_ok demo_schema typing_value = true /\
  chips (handleKeyDown demo_schema [] typing_value "Enter") = [Condition "age" ">" "30"] /\
  draft_ok demo_schema (handleKeyDown demo_schema [] typing_value "Enter") = true /\
  chips_ok demo_schema (handleKeyDown demo_schema [] typing_value "Enter") = true /\
  handleKeyDown demo_schema [] (choosing_operator "contains") "Enter" =
    choosing_operator "contains" /\
  activeOp (handleKeyDown demo_schema [] (choosing_operator ">=") "Enter") = Some ">=".
Proof.
  split; [reflexivity |]. split; [reflexivity |]. split; [reflexivity |].
  split; [| split; [| split]].
  - apply (proj1 (proj2 (commitCondition_unchecked demo_schema [] typing_value "Enter"
                           "" "" "")));
      reflexivity.
  - apply (proj1 (proj2 (commitCondition_unchecked demo_schema [] typing_value "Enter"
                           "" "" "")));
      reflexivity.
  - exact (proj1 (proj2 (proj2 (commitCondition_unchecked demo_schema []
                                  (choosing_operator "contains") "Enter" "" "" "")))
             eq_refl eq_refl).
  - rewrite (proj1 (proj2 (proj2 (commitCondition_unchecked demo_schema []
                                    (choosing_operator ">=") "Enter" "" "" "")))
               eq_refl eq_refl).
    reflexivity.
Defined.

(** C2 as stated fails: contains is not an operator of a number field, the
    specification's buildCondition fails with InvalidOperator, and
    [commitCondition] appends the condition all the same. *)
Lemma commitCondition_accepts_any_operator :
  includes_str (getOps TNumber) "contains" = false /\
  Spec.buildCondition TNumber "age" "contains" "abc" = Spec.Fails Spec.InvalidOperator /\
  chips (commitCondition "age" "contains" "abc" initial) =
    [Condition "age" "contains" "abc"] /\
  Spec.Returns (Condition "age" "contains" "abc") <>
    Spec.buildCondition TNumber "age" "contains" "abc".
Proof.
  repeat split. intros H. discriminate H.
Qed.

(** * Further properties of the code *)

(** ** applyFilter *)

Lemma filter_sublist {A : Type} (f : A -> bool) (l : list A) :
  sublist (List.filter f l) l.
Proof.
  induction l as [| a l IH]; simpl; [constructor |].
  destruct (f a); [now apply sublist_skip | now apply sublist_cons].
Qed.

Lemma filter_filter {A : Type} (f g : A -> bool) (l : list A) :
  List.filter g (List.filter f l) = List.filter (fun x => f x && g x) l.
Proof.
  induction l as [| a l IH]; simpl; [reflexivity |].
  destruct (f a) eqn:Hf; simpl; [| exact IH].
  destruct (g a); [now rewrite IH | exact IH].
Qed.

(** The rows one test keeps are among those a weaker test keeps, in order. *)
Lemma filter_sublist_weaker {A : Type} (f g : A -> bool) (l : list A) :
  (forall x, f x = true -> g x = true) ->
  sublist (List.filter f l) (List.filter g l).
Proof.
  intros Hfg. induction l as [| a l IH]; simpl; [constructor |].
  destruct (f a) eqn:Hf.
  - rewrite (Hfg a Hf). now apply sublist_skip.
  - destruct (g a); [now apply sublist_cons | exact IH].
Qed.

(** X1: whatever the tree, [applyFilter] returns rows of the input, each at
    most as often as it occurs there and in the input's order. *)
Theorem applyFilter_sublist (rows : list Row) (ast : option AstNode) :
  sublist (applyFilter rows ast) rows.
Proof.
  destruct ast as [[f o v | op children] |]; cbn [applyFilter];
    [reflexivity | apply filter_sublist | reflexivity].
Qed.

(** X2: filtering by a group whose children are [cs1 ++ cs2] is filtering
    by [cs1] and then by [cs2], whatever the three combinators are; so
    filtering twice by the same tree changes nothing. *)
Theorem applyFilter_app (rows : list Row) (op op1 op2 : Combinator)
    (cs1 cs2 : list AstNode) (ast : option AstNode) :
  applyFilter rows (Some (Group op (cs1 ++ cs2))) =
    applyFilter (applyFilter rows (Some (Group op1 cs1))) (Some (Group op2 cs2)) /\
  applyFilter (applyFilter rows ast) ast = applyFilter rows ast.
Proof.
  split.
  - cbn [applyFilter]. rewrite filter_filter.
    apply List.filter_ext. intros row. now rewrite forallb_app.
  - destruct ast as [[f o v | g children] |]; cbn [applyFilter]; try reflexivity.
    rewrite filter_filter. apply List.filter_ext. intros row.
    now destruct (forallb _ children).
Qed.

(** X3: on what the component publishes (no tree when there is no chip,
    the and-group of the chips otherwise) [applyFilter] keeps exactly the rows
    on which [evaluate] accepts the and-group of the chips. *)
Theorem applyFilter_published (rows : list Row) (st : State) :
  applyFilter rows (published st) =
    List.filter (fun row => evaluate row (Group And (chips st))) rows.
Proof.
  unfold published. destruct (chips st) as [| c cs] eqn:E.
  - cbn [applyFilter]. symmetry. apply filter_all.
  - cbn [applyFilter]. apply List.filter_ext. intros row. now rewrite evaluate_and.
Qed.

Lemma filter_index_In {A : Type} (keep : Z -> bool) (l : list A) (i : Z) (x : A) :
  In x (filter_index keep i l) -> In x l.
Proof.
  revert i. induction l as [| a l IH]; intros i; cbn [filter_index]; [tauto |].
  destruct (keep i); simpl; intros H; [destruct H as [-> | H] |]; eauto.
Qed.

Lemma forallb_subset {A : Type} (f : A -> bool) (l l' : list A) :
  (forall x, In x l' -> In x l) -> forallb f l = true -> forallb f l' = true.
Proof.
  intros Hsub H. apply forallb_forall. intros x Hx.
  rewrite forallb_forall in H. apply H, Hsub, Hx.
Qed.

(** X4: removing a chip, at any index, hides no row that was shown, and
    committing a condition shows no row that was hidden. *)
Theorem chips_and_rows (rows : list Row) (st : State) (idx : Z) (f o v : string) :
  sublist (applyFilter rows (published st))
          (applyFilter rows (published (removeChip idx st))) /\
  sublist (applyFilter rows (published (commitCondition f o v st)))
          (applyFilter rows (published st)).
Proof.
  rewrite !applyFilter_published. split.
  - apply filter_sublist_weaker. intros row. rewrite !evaluate_and.
    apply forallb_subset. intros c. cbn [removeChip chips]. apply filter_index_In.
  - apply filter_sublist_weaker. intros row. rewrite !evaluate_and.
    apply forallb_subset. intros c Hc. cbn [commitCondition chips].
    apply in_or_app. now left.
Qed.

(** ** evaluate *)

Lemma AstNode_nested_ind (P : AstNode -> Prop) :
  (forall f o v, P (Condition f o v)) ->
  (forall op children, Forall P children -> P (Group op children)) ->
  forall node, P node.
Proof.
  intros HC HG. fix IH 1. intros [f o v | op children].
  - apply HC.
  - apply HG. induction children as [| c cs IHcs]; constructor; [apply IH | exact IHcs].
Qed.

(** X5: [evaluate] reads a row only at the fields the tree names: two rows
    that agree on them get the same answer. *)
Theorem evaluate_local (node : AstNode) (row1 row2 : Row) :
  (forall f, In f (fields_of node) -> row1 !! f = row2 !! f) ->
  evaluate row1 node = evaluate row2 node.
Proof.
  induction node as [f o v | op children IH] using AstNode_nested_ind; intros Hag.
  - cbn [evaluate]. unfold get. rewrite (Hag f) by (simpl; tauto). reflexivity.
  - assert (E : List.map (evaluate row1) children = List.map (evaluate row2) children).
    { apply List.map_ext_in. intros c Hc.
      rewrite Forall_forall in IH. apply IH; [now apply list_elem_of_In |].
      intros f Hf. apply Hag. cbn [fields_of]. apply in_flat_map. eauto. }
    cbn [evaluate]. now rewrite E.
Qed.

Lemma evaluate_local_witness :
  evaluate (<["age" := Num (ofZ 31)]> only_name) (Condition "name" "=" "Alice") =
  evaluate only_name (Condition "name" "=" "Alice").
Proof.
  apply (evaluate_local (Condition "name" "=" "Alice")
           (<["age" := Num (ofZ 31)]> only_name) only_name).
  intros f [<- | []]. reflexivity.
Defined.

(** X6: a field the row does not have (and does not inherit) reads as
    [undefined]: under >, >=,
    < and <= the condition is false, under = it holds exactly for the value
    undefined, and under contains exactly for the values whose lower case
    occurs in undefined. *)
Theorem evaluate_missing_key (row : Row) (f op v : string) :
  inherited f = false ->
  row !! f = None ->
  (In op relational_operators -> evaluate row (Condition f op v) = false) /\
  evaluate row (Condition f "=" v) = String.eqb "undefined" v /\
  evaluate row (Condition f "!=" v) = negb (String.eqb "undefined" v) /\
  evaluate row (Condition f "contains" v) = includes "undefined" (toLowerCase v).
Proof.
  intros _ Hnone.
  assert (E : forall o, evaluate row (Condition f o v) = compare o Undefined (Str v)).
  { intros o. cbn [evaluate]. unfold get. rewrite Hnone. reflexivity. }
  rewrite !E. repeat split.
  intros Hop. apply compare_NaN; [exact Hop | now left].
Qed.

Lemma evaluate_missing_key_witness :
  evaluate only_name (Condition "age" "=" "undefined") = true /\
  evaluate only_name (Condition "age" "contains" "DEF") = true.
Proof.
  destruct (evaluate_missing_key only_name "age" ">" "undefined") as (_ & He & _);
    [reflexivity | reflexivity |].
  destruct (evaluate_missing_key only_name "age" ">" "DEF") as (_ & _ & _ & Hc);
    [reflexivity | reflexivity |].
  split; [rewrite He | rewrite Hc]; reflexivity.
Defined.

(** X7: a group over [cs1 ++ cs2] joins the groups over [cs1] and over
    [cs2] with its combinator; a group of one child is that child; a child
    that is a group with the same combinator can be spliced in. *)
Theorem evaluate_group_algebra (row : Row) (op : Combinator)
    (cs1 cs2 : list AstNode) (c : AstNode) :
  evaluate row (Group op (cs1 ++ cs2)) =
    join op (evaluate row (Group op cs1)) (evaluate row (Group op cs2)) /\
  evaluate row (Group op [c]) = evaluate row c /\
  evaluate row (Group op (Group op cs1 :: cs2)) = evaluate row (Group op (cs1 ++ cs2)).
Proof.
  destruct op; rewrite ?evaluate_and, ?evaluate_or; cbn [join forallb existsb].
  - rewrite evaluate_and, forallb_app, andb_true_r. repeat split.
  - rewrite evaluate_or, existsb_app, orb_false_r. repeat split.
Qed.

(** ** contains *)

Lemma startsWith_spec (s x : string) :
  startsWith s x = true <-> exists post, s = x +:+ post.
Proof.
  revert s. induction x as [| a x IH]; intros s.
  - split; [intros _; now exists s | intros _; now destruct s].
  - destruct s as [| b s]; cbn [startsWith].
    + split; [discriminate | intros [post H]; discriminate H].
    + rewrite andb_true_iff, IH. split.
      * intros [Hab [post ->]]. apply Ascii.eqb_eq in Hab. subst b. now exists post.
      * intros [post H]. injection H as -> ->. split; [apply Ascii.eqb_refl | now exists post].
Qed.

Lemma includes_spec (s x : string) :
  includes s x = true <-> exists pre post, s = pre +:+ x +:+ post.
Proof.
  induction s as [| c s IH]; cbn [includes]; rewrite orb_true_iff, startsWith_spec.
  - split.
    + intros [[post H] | H]; [| discriminate H]. exists "", post. exact H.
    + intros (pre & post & H). left. destruct pre as [| p pre]; [| discriminate H].
      now exists post.
  - rewrite IH. split.
    + intros [[post H] | (pre & post & H)].
      * exists "", post. exact H.
      * exists (String c pre), post. simpl. now rewrite H.
    + intros (pre & post & H). destruct pre as [| p pre].
      * left. now exists post.
      * right. simpl in H. injection H as _ H. now exists pre, post.
Qed.

Lemma append_empty_r (s : string) : s +:+ "" = s.
Proof.
  induction s as [| c s IH]; [reflexivity |].
  change (String c s +:+ "") with (String c (s +:+ "")). now rewrite IH.
Qed.

Lemma lower_char_idem (c : ascii) : lower_char (lower_char c) = lower_char c.
Proof. destruct c as [[] [] [] [] [] [] [] []]; vm_compute; reflexivity. Qed.

Lemma toLowerCase_idem (s : string) : toLowerCase (toLowerCase s) = toLowerCase s.
Proof.
  induction s as [| c s IH]; simpl; [reflexivity |].
  now rewrite lower_char_idem, IH.
Qed.

(** X8: contains holds exactly when the lower case of the right operand's
    string occurs, as a run of consecutive code units, in the lower case of
    the left operand's string; hence the case of either side does not matter,
    the empty value matches everything, and every value contains itself. *)
Theorem contains_is_substring (l r : value) :
  (compare "contains" l r = true <->
   exists pre post,
     toLowerCase (ToString l) = pre +:+ toLowerCase (ToString r) +:+ post) /\
  compare "contains" (Str (toLowerCase (ToString l))) r = compare "contains" l r /\
  compare "contains" l (Str (toLowerCase (ToString r))) = compare "contains" l r /\
  compare "contains" l (Str "") = true /\
  compare "contains" l l = true.
Proof.
  change (compare "contains") with
    (fun a b => includes (toLowerCase (ToString a)) (toLowerCase (ToString b))).
  cbn beta. cbn [ToString].
  split; [apply includes_spec |].
  rewrite !toLowerCase_idem.
  split; [reflexivity |]. split; [reflexivity |]. split.
  - apply includes_spec. exists "", (toLowerCase (ToString l)). reflexivity.
  - apply includes_spec. exists "", "". cbn [String.append]. symmetry. apply append_empty_r.
Qed.

(** ** useOptions, whatever the source *)

Lemma trace_cons ev evs h :
  useOptions_trace (ev :: evs) h = useOptions_trace evs (useOptions ev h).
Proof. reflexivity. Qed.

(** X9: in every state the hook reaches, the promise of a run that is not
    the last one settles without touching the applied options, whatever the
    sources and the queries have been. *)
Theorem superseded_result_dropped (evs : list HookEvent) (i : nat) (result : list string) :
  (S i < length (runs (useOptions_trace evs mount)))%nat ->
  hook_options (useOptions (Resolve i result) (useOptions_trace evs mount)) =
  hook_options (useOptions_trace evs mount).
Proof.
  intros Hlt. pose proof (stale_dead_reachable evs) as Hdead.
  cbn [useOptions].
  destruct (runs (useOptions_trace evs mount) !! i) as [r |] eqn:Hr; [| reflexivity].
  destruct (awaiting r); [| reflexivity].
  cbn [hook_options]. now rewrite (Hdead i r Hr Hlt).
Qed.

Lemma superseded_result_dropped_witness :
  hook_options
    (useOptions (Resolve 0 ["Alice"])
       (useOptions_trace
          [Render (Some (AsyncOptions 0)) "a";
           Render (Some (StaticOptions 1 ["active"; "draft"])) "ac"] mount)) =
  ["active"].
Proof.
  rewrite (superseded_result_dropped
             [Render (Some (AsyncOptions 0)) "a";
              Render (Some (StaticOptions 1 ["active"; "draft"])) "ac"] 0%nat ["Alice"]).
  - reflexivity.
  - vm_compute. lia.
Defined.

Lemma all_dead_resolve i result h :
  all_dead h ->
  all_dead (useOptions (Resolve i result) h) /\
  hook_options (useOptions (Resolve i result) h) = hook_options h.
Proof.
  intros Hd. cbn [useOptions].
  destruct (runs h !! i) as [r |] eqn:Hr; [| now split].
  destruct (awaiting r); [| now split].
  cbn [hook_options]. rewrite (Hd i r Hr). split; [| reflexivity].
  intros j x Hj. cbn [runs] in Hj.
  destruct (decide (i = j)) as [-> | Hne].
  - rewrite list_lookup_alter_eq, Hr in Hj. injection Hj as <-. apply (Hd j r Hr).
  - rewrite list_lookup_alter_ne in Hj by exact Hne. apply (Hd j x Hj).
Qed.

Lemma all_dead_resolves evs h :
  forallb is_resolve evs = true ->
  all_dead h ->
  hook_options (useOptions_trace evs h) = hook_options h.
Proof.
  revert h. induction evs as [| ev evs IH]; intros h Hev Hd; [reflexivity |].
  cbn [forallb] in Hev. apply andb_true_iff in Hev. destruct Hev as [He Hev].
  destruct ev as [| i result |]; try discriminate He.
  rewrite trace_cons.
  destruct (all_dead_resolve i result h Hd) as [Hd' Ho'].
  rewrite (IH _ Hev Hd'). exact Ho'.
Qed.

(** X10: once the component is unmounted, no promise that settles changes
    the options: every run, the last one included, has been cleaned up. *)
Theorem unmounted_never_updated (evs late : list HookEvent) :
  forallb is_resolve late = true ->
  hook_options (useOptions_trace (Unmount :: late) (useOptions_trace evs mount)) =
  hook_options (useOptions_trace evs mount).
Proof.
  intros Hlate. rewrite trace_cons.
  rewrite (all_dead_resolves late _ Hlate); [reflexivity |].
  intros i r Hi. cbn [useOptions runs] in Hi.
  apply (cleanup_all_dead _ i r (stale_dead_reachable evs) Hi).
Qed.

Lemma unmounted_never_updated_witness :
  hook_options
    (useOptions_trace [Unmount; Resolve 0 ["Alice"]]
       (useOptions_trace [Render (Some (AsyncOptions 0)) "a"] mount)) = [].
Proof.
  rewrite (unmounted_never_updated [Render (Some (AsyncOptions 0)) "a"]
             [Resolve 0 ["Alice"]]); reflexivity.
Defined.

(** With the promise of the current run settled, or none to settle, no
    promise changes the options. *)
Lemma settled_resolves cur src query evs h :
  current cur src query false h ->
  forallb is_resolve evs = true ->
  hook_options (useOptions_trace evs h) = hook_options h.
Proof.
  revert h. induction evs as [| ev evs IH]; intros h Hc Hev; [reflexivity |].
  cbn [forallb] in Hev. apply andb_true_iff in Hev. destruct Hev as [He Hev].
  destruct ev as [| i result |]; try discriminate He.
  rewrite trace_cons.
  destruct (decide (i = cur)) as [-> | Hne].
  - pose proof Hc as (_ & _ & (rc & Hrc & _ & Hp) & _).
    assert (E : useOptions (Resolve cur result) h = h).
    { cbn [useOptions]. now rewrite Hrc, Hp. }
    rewrite E. now apply IH.
  - assert (Hq : quiet cur src query (Resolve i result) = true).
    { cbn [quiet]. apply negb_true_iff. now apply Nat.eqb_neq. }
    destruct (quiet_step cur src query false _ h Hc Hq) as [Hc' Ho'].
    rewrite (IH _ Hc' Hev). exact Ho'.
Qed.

Lemma includes_empty (s : string) : includes s "" = true.
Proof. destruct s; reflexivity. Qed.

(** X11: when a render brings a source that is an array (or no source),
    the options become the entries whose lower case contains the lower-cased
    query, in the array's order (none without a source), all of them for the
    empty query; and no promise settling afterwards, of whatever earlier
    lookup, replaces them. *)
Theorem static_options_applied (evs late : list HookEvent) (ref : nat)
    (opts : list string) (query : string) :
  same_deps (deps (useOptions_trace evs mount)) (Some (StaticOptions ref opts)) query = false ->
  forallb is_resolve late = true ->
  hook_options
    (useOptions_trace (Render (Some (StaticOptions ref opts)) query :: late)
       (useOptions_trace evs mount)) =
    List.filter (fun o => includes (toLowerCase o) (toLowerCase query)) opts /\
  (query = "" ->
   hook_options
     (useOptions_trace (Render (Some (StaticOptions ref opts)) query :: late)
        (useOptions_trace evs mount)) = opts).
Proof.
  intros Hd Hlate.
  pose proof (render_issues (Some (StaticOptions ref opts)) query _
                (stale_dead_reachable evs) Hd) as Hc.
  cbn [isAsyncOptions] in Hc.
  rewrite trace_cons, (settled_resolves _ _ _ late _ Hc Hlate).
  assert (E : hook_options
                (useOptions (Render (Some (StaticOptions ref opts)) query)
                   (useOptions_trace evs mount)) =
              List.filter (fun o => includes (toLowerCase o) (toLowerCase query)) opts).
  { cbn [useOptions]. rewrite Hd. reflexivity. }
  rewrite E. split; [reflexivity |].
  intros ->. cbn [toLowerCase].
  rewrite (List.filter_ext _ (fun _ => true)) by (intros o; apply includes_empty).
  apply filter_all.
Qed.

Lemma static_options_applied_witness :
  hook_options
    (useOptions_trace
       [Render (Some (StaticOptions 1 ["active"; "archived"; "draft"])) "AR";
        Resolve 0 ["Alice"]]
       (useOptions_trace [Render (Some (AsyncOptions 0)) "a"] mount)) = ["archived"].
Proof.
  destruct (static_options_applied [Render (Some (AsyncOptions 0)) "a"]
              [Resolve 0 ["Alice"]] 1%nat ["active"; "archived"; "draft"] "AR") as [H _];
    [reflexivity | reflexivity |].
  rewrite H. reflexivity.
Defined.

(** ** The keyboard *)

Lemma suggestions_menuIndex schema hook_opts st i :
  suggestions schema hook_opts (with_menuIndex st i) = suggestions schema hook_opts st.
Proof. reflexivity. Qed.

Lemma rem_step_down (i n : Z) :
  0 <= i < n -> Z.rem (i + 1 + n) n = if i =? n - 1 then 0 else i + 1.
Proof.
  intros H. rewrite Z.rem_mod_nonneg by lia.
  destruct (Z.eqb_spec i (n - 1)) as [-> | Hne].
  - symmetry. apply (Z.mod_unique _ _ 2); lia.
  - symmetry. apply (Z.mod_unique _ _ 1); lia.
Qed.

Lemma rem_step_up (i n : Z) :
  0 <= i < n -> Z.rem (i - 1 + n) n = if i =? 0 then n - 1 else i - 1.
Proof.
  intros H. rewrite Z.rem_mod_nonneg by lia.
  destruct (Z.eqb_spec i 0) as [-> | Hne].
  - symmetry. apply (Z.mod_unique _ _ 0); lia.
  - symmetry. apply (Z.mod_unique _ _ 1); lia.
Qed.

(** X12: with the highlighted index inside a non-empty list of suggestions,
    ArrowDown moves it one down and from the last entry to the first, ArrowUp
    one up and from the first to the last; the index stays inside the list,
    nothing else changes, and ArrowDown followed by ArrowUp gives the state
    back. *)
Theorem arrows_cycle (schema : Schema) (hook_opts : list string) (st : State) :
  own_active st = true ->
  0 <= menuIndex st < Z.of_nat (length (suggestions schema hook_opts st)) ->
  handleKeyDown schema hook_opts st "ArrowDown" =
    with_menuIndex st
      (if menuIndex st =? Z.of_nat (length (suggestions schema hook_opts st)) - 1
       then 0 else menuIndex st + 1) /\
  handleKeyDown schema hook_opts st "ArrowUp" =
    with_menuIndex st
      (if menuIndex st =? 0
       then Z.of_nat (length (suggestions schema hook_opts st)) - 1
       else menuIndex st - 1) /\
  0 <= menuIndex (handleKeyDown schema hook_opts st "ArrowDown")
    < Z.of_nat (length (suggestions schema hook_opts st)) /\
  0 <= menuIndex (handleKeyDown schema hook_opts st "ArrowUp")
    < Z.of_nat (length (suggestions schema hook_opts st)) /\
  handleKeyDown schema hook_opts (handleKeyDown schema hook_opts st "ArrowDown") "ArrowUp"
    = st.
Proof.
  intros _ Hi.
  set (n := Z.of_nat (length (suggestions schema hook_opts st))) in *.
  assert (Hn : (n =? 0) = false) by (apply Z.eqb_neq; lia).
  assert (Hdown : handleKeyDown schema hook_opts st "ArrowDown" =
                  with_menuIndex st (if menuIndex st =? n - 1 then 0 else menuIndex st + 1)).
  { unfold handleKeyDown. fold n. rewrite Hn. cbn [negb andb String.eqb Ascii.eqb Bool.eqb orb].
    cbn. now rewrite rem_step_down. }
  assert (Hup : forall s, 0 <= menuIndex s < Z.of_nat (length (suggestions schema hook_opts s)) ->
                handleKeyDown schema hook_opts s "ArrowUp" =
                with_menuIndex s
                  (if menuIndex s =? 0
                   then Z.of_nat (length (suggestions schema hook_opts s)) - 1
                   else menuIndex s - 1)).
  { intros s Hs. unfold handleKeyDown.
    replace (Z.of_nat (length (suggestions schema hook_opts s)) =? 0) with false
      by (symmetry; apply Z.eqb_neq; lia).
    cbn. now rewrite rem_step_up. }
  split; [exact Hdown |]. split; [now apply Hup |].
  split; [rewrite Hdown; cbn [with_menuIndex menuIndex];
          destruct (Z.eqb_spec (menuIndex st) (n - 1)); lia |].
  split; [rewrite (Hup st Hi); cbn [with_menuIndex menuIndex]; fold n;
          destruct (Z.eqb_spec (menuIndex st) 0); lia |].
  rewrite Hdown, Hup.
  - rewrite suggestions_menuIndex. fold n. cbn [with_menuIndex menuIndex].
    destruct st as [t c af ao vd mi ss]. cbn [menuIndex] in *.
    unfold with_menuIndex.
    cbn [text chips activeField activeOp valueDraft menuIndex showSuggestions]. f_equal.
    destruct (Z.eqb_spec mi (n - 1)) as [Heq | Hne].
    + destruct (Z.eqb_spec 0 0); lia.
    + destruct (Z.eqb_spec (mi + 1) 0); lia.
  - rewrite suggestions_menuIndex. fold n. cbn [with_menuIndex menuIndex].
    destruct (Z.eqb_spec (menuIndex st) (n - 1)); lia.
Qed.

Lemma arrows_cycle_witness :
  menuIndex (handleKeyDown demo_schema [] (choosing_operator "") "ArrowUp") = 5 /\
  handleKeyDown demo_schema []
    (handleKeyDown demo_schema [] (choosing_operator "") "ArrowDown") "ArrowUp"
  = choosing_operator "".
Proof.
  destruct (arrows_cycle demo_schema [] (choosing_operator "")) as (_ & Hup & _ & _ & Hrt).
  - reflexivity.
  - vm_compute. split; [intros H; discriminate H | reflexivity].
  - split; [rewrite Hup; reflexivity | exact Hrt].
Defined.



(** ** The schema and the states the component reaches *)

Lemma respects_iff schema st :
  respects schema st = true <->
  chips_ok schema st = true /\ draft_ok schema st = true /\ field_ok schema st = true.
Proof. unfold respects. rewrite !andb_true_iff. tauto. Qed.

(** The three conditions look at the chips, the field and the operator only. *)
Lemma respects_same schema st st' :
  chips st' = chips st -> activeField st' = activeField st -> activeOp st' = activeOp st ->
  respects schema st' = respects schema st.
Proof.
  intros Hc Hf Ho.
  unfold respects, chips_ok, draft_ok, field_ok, ops, field.
  now rewrite Hc, Hf, Ho.
Qed.

Lemma lookup_field_cons schema k fs key :
  lookup_field ((k, fs) :: schema) key =
  if String.eqb k key then Some fs else lookup_field schema key.
Proof. unfold lookup_field. simpl. now destruct (String.eqb k key). Qed.

Lemma fields_lookup schema key :
  In key (fields schema) -> exists fs, lookup_field schema key = Some fs.
Proof.
  induction schema as [| [k fs] schema IH]; [intros [] |].
  intros Hin. rewrite lookup_field_cons.
  destruct (String.eqb k key) eqn:E; [eauto |].
  destruct Hin as [Hk | Hin]; [| now apply IH].
  simpl in Hk. subst k. now rewrite String.eqb_refl in E.
Qed.

Lemma includes_str_In l x : includes_str l x = true <-> In x l.
Proof.
  unfold includes_str. rewrite existsb_exists. split.
  - intros (y & Hy & E). apply String.eqb_eq in E. now subst.
  - intros H. exists x. split; [exact H | apply String.eqb_refl].
Qed.

Lemma field_ok_key schema st key :
  In key (fields schema) -> activeField st = Some key -> field_ok schema st = true.
Proof.
  intros Hin Hf. unfold field_ok. rewrite Hf.
  change (default "" (Some key)) with key.
  destruct (fields_lookup schema key Hin) as [fs ->]. apply orb_true_r.
Qed.

Lemma field_ok_unset schema st : is_set (activeField st) = false -> field_ok schema st = true.
Proof. intros H. unfold field_ok. now rewrite H. Qed.

(** An operator that is set comes with a field that is set. *)
Lemma draft_ok_unset schema st :
  draft_ok schema st = true -> is_set (activeField st) = false ->
  is_set (activeOp st) = false.
Proof.
  unfold draft_ok. intros Hd Hf. rewrite Hf in Hd. cbn [andb] in Hd.
  rewrite orb_false_r in Hd. now apply negb_true_iff.
Qed.

Lemma draft_ok_no_op schema st : is_set (activeOp st) = false -> draft_ok schema st = true.
Proof. intros H. unfold draft_ok. now rewrite H. Qed.

Lemma labelToField_fields schema k m :
  labelToField schema !! k = Some m -> In m (fields schema).
Proof.
  unfold labelToField.
  assert (G : forall keys (map : gmap string string),
             (forall key, In key keys -> In key (fields schema)) ->
             (forall k' m', map !! k' = Some m' -> In m' (fields schema)) ->
             forall k' m',
               fold_left
                 (fun map key =>
                    match lookup_field schema key with
                    | Some fs =>
                        <[toLowerCase key := key]> (<[toLowerCase (label fs) := key]> map)
                    | None => map
                    end) keys map !! k' = Some m' ->
               In m' (fields schema)).
  { induction keys as [| key keys IH]; intros map Hkeys Hmap k' m'; cbn [fold_left].
    - apply Hmap.
    - apply IH; [intros key' Hk; apply Hkeys; now right |].
      intros k'' m''. destruct (lookup_field schema key); [| apply Hmap].
      rewrite lookup_insert. case_decide.
      + intros [= <-]. apply Hkeys. now left.
      + rewrite lookup_insert. case_decide; [| apply Hmap].
        intros [= <-]. apply Hkeys. now left. }
  apply G; [tauto |]. intros k' m' H. rewrite lookup_empty in H. discriminate H.
Qed.

Lemma handleKeyDown_field_ok schema hook_opts st key :
  field_ok schema st = true ->
  field_ok schema (handleKeyDown schema hook_opts st key) = true.
Proof.
  intros Hf. unfold handleKeyDown.
  destruct (negb _ && (String.eqb key "ArrowDown" || String.eqb key "ArrowUp")).
  { exact Hf. }
  destruct (if String.eqb key "Enter" then _ else _) as [st' |] eqn:He.
  - destruct (String.eqb key "Enter"); [| discriminate He].
    unfold onEnter in He.
    destruct (negb (is_set (activeField st))).
    + destruct (includes_str (fields schema) (chosen schema hook_opts st)) eqn:Hin;
        [| discriminate He].
      injection He as <-. apply includes_str_In in Hin.
      now apply (field_ok_key schema _ (chosen schema hook_opts st)).
    + destruct (negb (is_set (activeOp st))).
      * destruct (includes_str _ _); [| discriminate He]. injection He as <-. exact Hf.
      * destruct (negb _); [injection He as <-; reflexivity |].
        destruct (truthy _); [injection He as <-; reflexivity | discriminate He].
  - destruct (String.eqb key "Escape"); [reflexivity | exact Hf].
Qed.

Lemma chips_ok_In schema st c :
  chips_ok schema st = true -> In c (chips st) ->
  exists f o v fs,
    c = Condition f o v /\ lookup_field schema f = Some fs /\ In o (getOps (type fs)).
Proof.
  unfold chips_ok. rewrite forallb_forall. intros Hall Hin.
  specialize (Hall c Hin). destruct c as [f o v | op cs]; [| discriminate Hall].
  cbn [allowed_chip] in Hall.
  destruct (lookup_field schema f) as [fs |] eqn:E; [| discriminate Hall].
  exists f, o, v, fs. repeat split; [exact E | now apply includes_str_In].
Qed.

Lemma suggestion_ids {A : Type} (mk : A -> Suggestion) (keep : A -> bool)
    (l : list A) (s : Suggestion) :
  In s (List.map mk (List.filter keep l)) ->
  exists a, s = mk a /\ In a l /\ keep a = true.
Proof.
  rewrite in_map_iff. intros (a & <- & Ha). apply filter_In in Ha. now exists a.
Qed.

Lemma onChange_respects schema st v :
  respects schema st = true -> respects schema (onChange schema st v) = true.
Proof.
  intros H. unfold onChange.
  assert (Htyped : forall b,
            respects schema
              {| text := v; chips := chips st; activeField := activeField st;
                 activeOp := activeOp st; valueDraft := valueDraft st;
                 menuIndex := menuIndex st; showSuggestions := b |} = true).
  { intros b. now rewrite (respects_same schema st). }
  destruct (is_set (activeField st)) eqn:Hf; cbn [negb]; [apply Htyped |].
  destruct (if truthy _ then _ else None) as [m |] eqn:Hm; [| apply Htyped].
  destruct (truthy m); [| apply Htyped].
  apply respects_iff in H. destruct H as (Hc & Hd & _).
  apply respects_iff. split; [exact Hc |]. split.
  - apply draft_ok_no_op. cbn [activeOp]. now apply (draft_ok_unset schema st).
  - apply (field_ok_key schema _ m); [| reflexivity].
    destruct (truthy _); [| discriminate Hm].
    now apply (labelToField_fields schema _ m Hm).
Qed.

Lemma onSuggestionMouseDown_respects schema hook_opts st s :
  respects schema st = true ->
  In s (suggestions schema hook_opts st) ->
  respects schema (onSuggestionMouseDown st s) = true.
Proof.
  intros H Hin. apply respects_iff in H. destruct H as (Hc & Hd & Hfo).
  unfold onSuggestionMouseDown. unfold suggestions in Hin.
  destruct (is_set (activeField st)) eqn:Hf; cbn [negb].
  - destruct (is_set (activeOp st)) eqn:Ho; cbn [negb].
    + apply respects_iff.
      destruct (commit_ok schema (default "" (activeField st)) (default "" (activeOp st))
                  (id s) st Hc (draft_ok_allowed schema st Hd Ho (id s))) as [Hd' Hc'].
      split; [exact Hc' |]. split; [exact Hd' | reflexivity].
    + unfold opSuggestions in Hin. rewrite Hf, Ho in Hin. cbn [negb andb] in Hin.
      apply suggestion_ids in Hin. destruct Hin as (o & -> & Ho' & _).
      apply respects_iff. split; [exact Hc |]. split; [| exact Hfo].
      unfold draft_ok. cbn [activeOp activeField id]. rewrite Hf.
      apply orb_true_iff. right. cbn [andb].
      change (default "" (Some o)) with o. now apply includes_str_In.
  - unfold fieldSuggestions in Hin. rewrite Hf in Hin. cbn [negb andb] in Hin.
    destruct (0 <? _); [| destruct Hin].
    apply suggestion_ids in Hin. destruct Hin as (f & -> & Hf' & _).
    apply respects_iff. split; [exact Hc |]. split.
    + apply draft_ok_no_op. cbn [activeOp]. now apply (draft_ok_unset schema st).
    + now apply (field_ok_key schema _ f).
Qed.

Lemma removeChip_respects schema st idx :
  respects schema st = true -> respects schema (removeChip idx st) = true.
Proof.
  intros H. apply respects_iff in H. destruct H as (Hc & Hd & Hf).
  apply respects_iff. split; [| split; [exact Hd | exact Hf]].
  unfold chips_ok in *. cbn [removeChip chips].
  apply (forallb_subset _ (chips st)); [| exact Hc].
  intros c. apply filter_index_In.
Qed.

Lemma dispatch_respects schema hook_opts st ev :
  respects schema st = true -> respects schema (dispatch schema hook_opts st ev) = true.
Proof.
  intros H.
  destruct ev as [key | v | v | i | i | i | | |]; cbn [dispatch].
  - pose proof H as H'. apply respects_iff in H'. destruct H' as (Hc & Hd & Hf).
    apply respects_iff.
    destruct (handleKeyDown_ok schema hook_opts st key Hd Hc) as [Hd' Hc'].
    split; [exact Hc' |]. split; [exact Hd' |]. now apply handleKeyDown_field_ok.
  - now apply onChange_respects.
  - destruct (_ && _); [| exact H]. now rewrite (respects_same schema st).
  - destruct (showSuggestions st); [| exact H].
    destruct (suggestions schema hook_opts st !! i) as [s |] eqn:Hs; [| exact H].
    apply (onSuggestionMouseDown_respects schema hook_opts); [exact H |].
    apply list_elem_of_In. now apply (list_elem_of_lookup_2 _ i).
  - destruct (chips st !! i) as [chip |] eqn:Hchip; [| exact H].
    apply respects_iff in H. destruct H as (Hc & Hd & Hf).
    assert (Hin : In chip (chips st))
      by (apply list_elem_of_In; now apply (list_elem_of_lookup_2 _ i)).
    destruct (chips_ok_In schema st chip Hc Hin) as (f & o & v & fs & -> & Hl & _).
    apply respects_iff. split; [exact Hc |]. split; [reflexivity |].
    unfold field_ok, onOperatorClick. cbn [activeField].
    change (default "" (Some f)) with f. rewrite Hl. apply orb_true_r.
  - destruct (chips st !! i); [| exact H]. now apply removeChip_respects.
  - destruct (_ || _); [reflexivity | exact H].
  - now rewrite (respects_same schema st).
  - now rewrite (respects_same schema st).
Qed.

(** X14: whatever the user does (keys, typing words other than the names
    an object inherits, clicks on suggestions, on a chip's operator, on its
    remove button, on Clear) and whatever options the lookups return,
    starting from the empty component the state keeps
    agreeing with the schema: every chip is a condition on a field of the
    schema with an operator allowed for that field's type, and so is every
    child of the group that is published. *)
Theorem reachable_respects (schema : Schema) (evs : list (list string * Event)) :
  forallb (fun oe => own_event (snd oe)) evs = true ->
  respects schema (dispatch_all schema evs initial) = true /\
  (forall c, In c (chips (dispatch_all schema evs initial)) ->
   exists f o v fs,
     c = Condition f o v /\ lookup_field schema f = Some fs /\ In o (getOps (type fs))) /\
  (published (dispatch_all schema evs initial) = None \/
   published (dispatch_all schema evs initial) =
     Some (Group And (chips (dispatch_all schema evs initial)))).
Proof.
  intros _.
  assert (G : forall st, respects schema st = true ->
                         respects schema (dispatch_all schema evs st) = true).
  { induction evs as [| [opts ev] evs IH]; intros st H; [exact H |].
    cbn [dispatch_all fold_left]. apply IH. now apply dispatch_respects. }
  assert (H : respects schema (dispatch_all schema evs initial) = true)
    by (apply G; reflexivity).
  split; [exact H |]. split.
  - intros c Hc. apply respects_iff in H. destruct H as (Hok & _).
    now apply (chips_ok_In schema (dispatch_all schema evs initial) c).
  - unfold published. destruct (chips _); [now left | now right].
Qed.

(** Choosing age, then >, typing 30 and pressing Enter; then removing the
    chip. *)
Lemma reachable_respects_witness :
  chips (dispatch_all demo_schema
           [([], Change "Age >"); ([], KeyDown "Enter"); ([], Change " 30 ");
            ([], KeyDown "Enter")] initial) = [Condition "age" ">" "30"] /\
  published (dispatch_all demo_schema
               [([], Change "Age >"); ([], KeyDown "Enter"); ([], Change " 30 ");
                ([], KeyDown "Enter"); ([], RemoveClick 0)] initial) = None.
Proof.
  split; [reflexivity |].
  destruct (reachable_respects demo_schema
              [([], Change "Age >"); ([], KeyDown "Enter"); ([], Change " 30 ");
               ([], KeyDown "Enter"); ([], RemoveClick 0)] eq_refl) as (_ & _ & [H | H]).
  - exact H.
  - vm_compute in H. discriminate H.
Defined.

(** ** Suggestions *)

Lemma startsWith_empty (s : string) : startsWith s "" = true.
Proof. now destruct s. Qed.

Lemma ids_of_map (l : list string) (lab : string -> string) :
  List.map id (List.map (fun o => {| id := o; sg_label := lab o |}) l) = l.
Proof. rewrite List.map_map. cbn [id]. apply List.map_id. Qed.

Lemma nonempty_length (t : string) : (0 <? Z.of_nat (String.length t)) = truthy t.
Proof. now destruct t. Qed.

Lemma empty_or_startsWith (o t : string) :
  (Z.of_nat (String.length t) =? 0) || startsWith o t = startsWith o t.
Proof. destruct t; [now rewrite startsWith_empty | reflexivity]. Qed.

(** X15: what is suggested, in full.  With no field chosen: nothing while
    the input is empty, otherwise exactly the keys of the schema whose lower
    case contains the lower-cased text, in the schema's order, each with its
    label.  With a field and no operator: exactly the operators of the
    field's type that begin with the text, in the order of the table, hence
    all of them while the input is empty.  With both: exactly the options of
    the lookup for an enum, relation or boolean field, nothing for another
    field. *)
Theorem suggestions_sound (schema : Schema) (hook_opts : list string) (st : State) :
  own_active st = true ->
  (is_set (activeField st) = false ->
   List.map id (suggestions schema hook_opts st) =
     (if truthy (text st)
      then List.filter (fun f => includes (toLowerCase f) (toLowerCase (text st)))
             (fields schema)
      else []) /\
   forall s, In s (suggestions schema hook_opts st) ->
     exists fs, lookup_field schema (id s) = Some fs /\ sg_label s = label fs) /\
  (is_set (activeField st) = true -> is_set (activeOp st) = false ->
   List.map id (suggestions schema hook_opts st) =
     List.filter (fun o => startsWith o (text st)) (ops schema st) /\
   (text st = "" -> List.map id (suggestions schema hook_opts st) = ops schema st) /\
   forall s, In s (suggestions schema hook_opts st) -> sg_label s = id s) /\
  (is_set (activeField st) = true -> is_set (activeOp st) = true ->
   List.map id (suggestions schema hook_opts st) =
     match type <$> field schema st with
     | Some TEnum | Some TRelation | Some TBoolean => hook_opts
     | _ => []
     end /\
   forall s, In s (suggestions schema hook_opts st) -> sg_label s = id s).
Proof.
  intros _. unfold suggestions. split; [| split].
  - intros Hf. rewrite Hf. unfold fieldSuggestions. rewrite Hf. cbn [negb andb].
    rewrite nonempty_length. destruct (truthy (text st)); [| split; [reflexivity | intros s []]].
    split; [apply ids_of_map |].
    intros s Hin. apply suggestion_ids in Hin. destruct Hin as (f & -> & Hfin & _).
    cbn [id sg_label]. destruct (fields_lookup schema f Hfin) as [fs Hfs].
    exists fs. now rewrite Hfs.
  - intros Hf Ho. rewrite Hf, Ho. unfold opSuggestions. rewrite Hf, Ho. cbn [negb andb].
    assert (E : List.map id
                  (List.map (fun o => {| id := o; sg_label := o |})
                     (List.filter
                        (fun o => (Z.of_nat (String.length (text st)) =? 0)
                                  || startsWith o (text st)) (ops schema st))) =
                List.filter (fun o => startsWith o (text st)) (ops schema st)).
    { rewrite (ids_of_map _ (fun o => o)). apply List.filter_ext.
      intros o. apply empty_or_startsWith. }
    split; [exact E |]. split.
    + intros Ht. rewrite E, Ht.
      rewrite (List.filter_ext _ (fun _ => true)) by (intros o; apply startsWith_empty).
      apply filter_all.
    + intros s Hin. apply suggestion_ids in Hin. now destruct Hin as (o & -> & _).
  - intros Hf Ho. rewrite Hf, Ho. unfold valueSuggestions. rewrite Hf. cbn [andb].
    assert (Hlab : forall s,
              In s (List.map (fun o => {| id := o; sg_label := o |}) hook_opts) ->
              sg_label s = id s).
    { intros s Hin. apply in_map_iff in Hin. now destruct Hin as (o & <- & _). }
    destruct (type <$> field schema st) as [[] |];
      (split; [try reflexivity; apply (ids_of_map hook_opts (fun o => o))
              | try exact Hlab; intros s []]).
Qed.

Lemma suggestions_sound_witness :
  List.map id (suggestions demo_schema [] (choosing_operator "")) =
    ["="; "!="; ">"; ">="; "<"; "<="] /\
  List.map id (suggestions demo_schema [] (choosing_operator ">")) = [">"; ">="].
Proof.
  split.
  - exact (proj1 (proj2 (proj1 (proj2 (suggestions_sound demo_schema []
                                         (choosing_operator "") eq_refl))
                           eq_refl eq_refl)) eq_refl).
  - exact (proj1 (proj1 (proj2 (suggestions_sound demo_schema []
                                  (choosing_operator ">") eq_refl))
                    eq_refl eq_refl)).
Defined.

(** ** Typing into the input *)

Lemma toLowerCase_app (a b : string) :
  toLowerCase (a +:+ b) = toLowerCase a +:+ toLowerCase b.
Proof.
  induction a as [| c a IH]; [reflexivity |].
  change (String c a +:+ b) with (String c (a +:+ b)). cbn [toLowerCase].
  now rewrite IH.
Qed.

Lemma length_toLowerCase (s : string) : String.length (toLowerCase s) = String.length s.
Proof. induction s as [| c s IH]; simpl; [reflexivity | now rewrite IH]. Qed.

Lemma truthy_toLowerCase (s : string) : truthy (toLowerCase s) = truthy s.
Proof. now destruct s. Qed.

Lemma firstPart_app (w rest : string) :
  no_space w = true -> at_space rest = true -> firstPart (w +:+ rest) = w.
Proof.
  intros Hw Hr. induction w as [| c w IH].
  - change ("" +:+ rest) with rest. destruct rest as [| r rest]; [reflexivity |].
    simpl in Hr. simpl. now rewrite Hr.
  - change (String c w +:+ rest) with (String c (w +:+ rest)).
    unfold no_space in Hw. cbn [list_ascii_of_string forallb] in Hw.
    apply andb_true_iff in Hw. destruct Hw as [Hc Hw].
    apply negb_true_iff in Hc. cbn [firstPart]. rewrite Hc. now rewrite IH.
Qed.

Lemma trimStart_word (w rest : string) :
  truthy w = true -> no_space w = true -> trimStart (w +:+ rest) = w +:+ rest.
Proof.
  intros Ht Hw. destruct w as [| c w]; [discriminate Ht |].
  change (String c w +:+ rest) with (String c (w +:+ rest)).
  unfold no_space in Hw. cbn [list_ascii_of_string forallb] in Hw.
  apply andb_true_iff in Hw. destruct Hw as [Hc _]. apply negb_true_iff in Hc.
  cbn [trimStart]. now rewrite Hc.
Qed.

Lemma indexOf_prefix (s x : string) : startsWith s x = true -> indexOf s x = 0.
Proof. intros H. destruct s; cbn [indexOf]; now rewrite H. Qed.

Lemma drop_chars_app (w rest : string) : drop_chars (String.length w) (w +:+ rest) = rest.
Proof.
  induction w as [| c w IH]; [now destruct rest |].
  change (String c w +:+ rest) with (String c (w +:+ rest)). exact IH.
Qed.

(** What the map from labels and keys holds: under a lower-cased key or
    label, a key of the schema that has it. *)
Lemma labelToField_sound schema k m :
  labelToField schema !! k = Some m ->
  In m (fields schema) /\
  (k = toLowerCase m \/
   exists fs, lookup_field schema m = Some fs /\ k = toLowerCase (label fs)).
Proof.
  unfold labelToField.
  set (ok := fun (k' m' : string) =>
               In m' (fields schema) /\
               (k' = toLowerCase m' \/
                exists fs, lookup_field schema m' = Some fs /\ k' = toLowerCase (label fs))).
  assert (G : forall keys (map : gmap string string),
             (forall key, In key keys -> In key (fields schema)) ->
             (forall k' m', map !! k' = Some m' -> ok k' m') ->
             forall k' m',
               fold_left
                 (fun map key =>
                    match lookup_field schema key with
                    | Some fs =>
                        <[toLowerCase key := key]> (<[toLowerCase (label fs) := key]> map)
                    | None => map
                    end) keys map !! k' = Some m' ->
               ok k' m').
  { induction keys as [| key keys IH]; intros map Hkeys Hmap k' m'; cbn [fold_left].
    - apply Hmap.
    - apply IH; [intros key' Hk; apply Hkeys; now right |].
      intros k'' m''. destruct (lookup_field schema key) as [fs |] eqn:Efs; [| apply Hmap].
      rewrite lookup_insert. case_decide.
      + intros [= <-]. split; [apply Hkeys; now left | now left].
      + rewrite lookup_insert. case_decide; [| apply Hmap].
        intros [= <-]. split; [apply Hkeys; now left |]. right. exists fs. now split.
  }
  intros H. apply (G (fields schema) ∅); [tauto | | exact H].
  intros k' m' H'. rewrite lookup_empty in H'. discriminate H'.
Qed.

(** X16: for what is typed in code units below 256 (where lower-casing
    keeps the length, on which the offset of the slice relies): with no
    field chosen, typing a word (not a name the map inherits) followed by
    nothing or by white space and more text chooses the field that the map
    from labels and keys holds under the lower-cased word, and leaves what
    follows the word, without its leading white space, in the input; that
    field is a key of the schema whose key or label is the word up to case.
    A word the map does not hold is just text. *)
Theorem onChange_selects_field (schema : Schema) (st : State) (w rest : string) :
  latin1 (w +:+ rest) = true ->
  inherited (toLowerCase w) = false ->
  is_set (activeField st) = false ->
  truthy w = true -> no_space w = true -> at_space rest = true ->
  (forall m, labelToField schema !! toLowerCase w = Some m -> truthy m = true ->
     onChange schema st (w +:+ rest) =
       {| text := trimStart rest; chips := chips st; activeField := Some m;
          activeOp := activeOp st; valueDraft := valueDraft st;
          menuIndex := menuIndex st; showSuggestions := true |} /\
     In m (fields schema) /\
     (toLowerCase w = toLowerCase m \/
      exists fs, lookup_field schema m = Some fs /\ toLowerCase w = toLowerCase (label fs))) /\
  (labelToField schema !! toLowerCase w = None ->
   onChange schema st (w +:+ rest) =
     {| text := w +:+ rest; chips := chips st; activeField := activeField st;
        activeOp := activeOp st; valueDraft := valueDraft st;
        menuIndex := menuIndex st; showSuggestions := true |}).
Proof.
  intros _ _ Hf Ht Hw Hr.
  assert (Hmaybe : toLowerCase (firstPart (trimStart (w +:+ rest))) = toLowerCase w)
    by now rewrite trimStart_word, firstPart_app.
  split.
  - intros m Hm Htm. split; [| now apply labelToField_sound].
    unfold onChange. rewrite Hf. cbn [negb]. rewrite Hmaybe.
    rewrite truthy_toLowerCase, Ht, Hm, Htm.
    rewrite toLowerCase_app, indexOf_prefix
      by (apply startsWith_spec; now exists (toLowerCase rest)).
    rewrite length_toLowerCase. unfold slice.
    replace (0 + Z.of_nat (String.length w) <? 0) with false
      by (symmetry; apply Z.ltb_ge; lia).
    rewrite Z.add_0_l, Nat2Z.id, drop_chars_app. reflexivity.
  - intros Hnone. unfold onChange. rewrite Hf. cbn [negb]. rewrite Hmaybe.
    now rewrite truthy_toLowerCase, Ht, Hnone.
Qed.

Lemma onChange_selects_field_witness :
  onChange demo_schema initial "Age > 30" =
    {| text := "> 30"; chips := []; activeField := Some "age"; activeOp := None;
       valueDraft := ""; menuIndex := 0; showSuggestions := true |}.
Proof.
  assert (Hm : labelToField demo_schema !! toLowerCase "Age" = Some "age")
    by (vm_compute; reflexivity).
  exact (proj1 (proj1 (onChange_selects_field demo_schema initial "Age" " > 30"
                         eq_refl eq_refl eq_refl eq_refl eq_refl eq_refl)
                  "age" Hm eq_refl)).
Defined.

(** ** Integers and dates as Numbers *)

Lemma digits2_bounds (p : positive) :
  2 ^ (Z.pos (digits2_pos p) - 1) <= Z.pos p < 2 ^ Z.pos (digits2_pos p).
Proof.
  induction p as [p IH | p IH |]; cbn [digits2_pos].
  - rewrite Pos2Z.inj_succ, Z.pow_succ_r by lia.
    replace (Z.succ (Z.pos (digits2_pos p)) - 1) with (Z.succ (Z.pos (digits2_pos p) - 1)) by lia.
    rewrite Z.pow_succ_r by lia. lia.
  - rewrite Pos2Z.inj_succ, Z.pow_succ_r by lia.
    replace (Z.succ (Z.pos (digits2_pos p)) - 1) with (Z.succ (Z.pos (digits2_pos p) - 1)) by lia.
    rewrite Z.pow_succ_r by lia. lia.
  - simpl. lia.
Qed.

Lemma iter_xO_value (k p : positive) :
  Z.pos (Pos.iter xO p k) = Z.pos p * 2 ^ Z.pos k.
Proof.
  induction k as [| k IH] using Pos.peano_ind.
  - simpl. lia.
  - rewrite Pos.iter_succ, Pos2Z.inj_xO, IH, Pos2Z.inj_succ, Z.pow_succ_r by lia. lia.
Qed.

Lemma iter_xO_digits (k p : positive) :
  digits2_pos (Pos.iter xO p k) = (digits2_pos p + k)%positive.
Proof.
  induction k as [| k IH] using Pos.peano_ind.
  - simpl. lia.
  - rewrite Pos.iter_succ. cbn [digits2_pos]. rewrite IH. lia.
Qed.

Lemma round_aux_canonical (s : bool) (m : positive) (e : Z) :
  Z.pos (digits2_pos m) = 53 -> -1074 <= e <= 971 ->
  binary_round_aux 53 1024 s (Z.pos m) e loc_Exact = S754_finite s m e.
Proof.
  intros Hd He. unfold binary_round_aux, shr_fexp, fexp, emin.
  cbn [Zdigits2 shr_record_of_loc]. rewrite Hd.
  replace (Z.max (53 + e - 53) (3 - 1024 - 53) - e) with 0 by lia.
  cbn [shr shr_m loc_of_shr_record round_nearest_even Zdigits2 shr_record_of_loc]. rewrite Hd.
  replace (Z.max (53 + e - 53) (3 - 1024 - 53) - e) with 0 by lia.
  cbn [shr shr_m].
  replace (e <=? 1024 - 53) with true by (symmetry; apply Z.leb_le; lia).
  reflexivity.
Qed.

(** The Number of a positive integer below 2^53. *)
Lemma round_small (s : bool) (p : positive) :
  Z.pos (digits2_pos p) <= 53 ->
  exists m, binary_round 53 1024 s p 0 = S754_finite s m (Z.pos (digits2_pos p) - 53) /\
            Z.pos m = Z.pos p * 2 ^ (53 - Z.pos (digits2_pos p)) /\
            Z.pos (digits2_pos m) = 53.
Proof.
  intros Hd. unfold binary_round, shl_align, fexp, emin.
  rewrite Z.add_0_r.
  replace (Z.max (Z.pos (digits2_pos p) - 53) (3 - 1024 - 53)) with (Z.pos (digits2_pos p) - 53) by lia.
  rewrite Z.sub_0_r.
  destruct (Z.pos (digits2_pos p) - 53) as [| q | q] eqn:E; [| lia |].
  - exists p. rewrite round_aux_canonical by lia.
    replace (53 - Z.pos (digits2_pos p)) with 0 by lia. split; [reflexivity |]. split; lia.
  - exists (Pos.iter xO p q).
    assert (Hdig : Z.pos (digits2_pos (Pos.iter xO p q)) = 53)
      by (rewrite iter_xO_digits; lia).
    rewrite round_aux_canonical by (try exact Hdig; lia).
    split; [reflexivity |]. split; [| exact Hdig].
    rewrite iter_xO_value. f_equal. f_equal. lia.
Qed.

Lemma digits2_small (p : positive) : Z.pos p < 2 ^ 53 -> Z.pos (digits2_pos p) <= 53.
Proof.
  intros H. pose proof (digits2_bounds p) as [Hlo _].
  destruct (Z.le_gt_cases (Z.pos (digits2_pos p)) 53) as [Hle | Hgt]; [exact Hle |].
  assert (2 ^ 53 <= 2 ^ (Z.pos (digits2_pos p) - 1)) by (apply Z.pow_le_mono_r; lia).
  lia.
Qed.

(** Two positive integers below 2^53, as Numbers, compare as they do as
    integers. *)
Lemma compare_round_small (p1 p2 m1 m2 : positive) :
  Z.pos (digits2_pos p1) <= 53 -> Z.pos (digits2_pos p2) <= 53 ->
  Z.pos m1 = Z.pos p1 * 2 ^ (53 - Z.pos (digits2_pos p1)) ->
  Z.pos m2 = Z.pos p2 * 2 ^ (53 - Z.pos (digits2_pos p2)) ->
  match Z.pos (digits2_pos p1) - 53 ?= Z.pos (digits2_pos p2) - 53 with
  | Lt => Lt
  | Gt => Gt
  | Eq => Pos.compare_cont Eq m1 m2
  end = (Z.pos p1 ?= Z.pos p2).
Proof.
  intros Hd1 Hd2 Hm1 Hm2.
  pose proof (digits2_bounds p1) as [Hlo1 Hhi1].
  pose proof (digits2_bounds p2) as [Hlo2 Hhi2].
  destruct (Z.compare_spec (Z.pos (digits2_pos p1) - 53) (Z.pos (digits2_pos p2) - 53))
    as [He | He | He].
  - assert (Ed : Z.pos (digits2_pos p1) = Z.pos (digits2_pos p2)) by lia.
    rewrite Ed in Hm1.
    change (Pos.compare_cont Eq m1 m2) with (Z.pos m1 ?= Z.pos m2).
    rewrite Hm1, Hm2. symmetry. apply Zmult_compare_compat_r.
    apply Z.lt_gt, Z.pow_pos_nonneg; lia.
  - symmetry. apply Z.compare_lt_iff.
    assert (2 ^ Z.pos (digits2_pos p1) <= 2 ^ (Z.pos (digits2_pos p2) - 1))
      by (apply Z.pow_le_mono_r; lia).
    lia.
  - symmetry. apply Z.compare_gt_iff.
    assert (2 ^ Z.pos (digits2_pos p2) <= 2 ^ (Z.pos (digits2_pos p1) - 1))
      by (apply Z.pow_le_mono_r; lia).
    lia.
Qed.

Lemma SFcompare_ofZ (a b : Z) :
  safe a -> safe b -> SFcompare (ofZ a) (ofZ b) = Some (a ?= b).
Proof.
  unfold safe, ofZ, binary_normalize, prec, emax. intros Ha Hb.
  destruct a as [| p1 | p1], b as [| p2 | p2]; try reflexivity;
    repeat match goal with
    | |- context [binary_round 53 1024 ?s ?p 0] =>
        let m := fresh "m" in let E := fresh "E" in let Hm := fresh "Hm" in
        destruct (round_small s p) as (m & E & Hm & _);
        [apply digits2_small; lia | rewrite E; clear E]
    end; cbn [SFcompare]; try reflexivity.
  - f_equal. apply compare_round_small; try assumption; apply digits2_small; lia.
  - f_equal. change (Z.neg p1 ?= Z.neg p2) with (CompOpp (Z.pos p1 ?= Z.pos p2)).
    rewrite <- (compare_round_small p1 p2 m m0); try assumption; try (apply digits2_small; lia).
    now destruct (_ ?= _).
Qed.

Lemma truncate_ofZ (z : Z) : safe z -> truncate (ofZ z) = z.
Proof.
  unfold safe, ofZ, binary_normalize, prec, emax. intros Hz.
  assert (G : forall s p, Z.pos p < 2 ^ 53 ->
              truncate (binary_round 53 1024 s p 0) = if s then Z.neg p else Z.pos p).
  { intros s p Hp. destruct (round_small s p) as (m & E & Hm & _);
      [now apply digits2_small |].
    rewrite E. cbn [truncate].
    assert (Hd : Z.pos (digits2_pos p) <= 53) by now apply digits2_small.
    assert (Hv : (if 0 <=? Z.pos (digits2_pos p) - 53
                  then Z.pos m * 2 ^ (Z.pos (digits2_pos p) - 53)
                  else Z.pos m / 2 ^ (- (Z.pos (digits2_pos p) - 53))) = Z.pos p).
    { destruct (Z.leb_spec 0 (Z.pos (digits2_pos p) - 53)) as [H0 | H0].
      - replace (Z.pos (digits2_pos p) - 53) with 0 by lia.
        replace (53 - Z.pos (digits2_pos p)) with 0 in Hm by lia. lia.
      - replace (- (Z.pos (digits2_pos p) - 53)) with (53 - Z.pos (digits2_pos p)) by lia.
        rewrite Hm. apply Z.div_mul.
        apply Z.pow_nonzero; lia. }
    rewrite Hv. destruct s; reflexivity. }
  destruct z as [| p | p]; [reflexivity | |]; rewrite G by lia; reflexivity.
Qed.

Lemma ofZ_not_special (z : Z) :
  safe z -> ofZ z <> S754_nan /\ forall s, ofZ z <> S754_infinity s.
Proof.
  unfold safe, ofZ, binary_normalize, prec, emax. intros Hz.
  destruct z as [| p | p].
  - split; [discriminate | intros s; discriminate].
  - destruct (round_small false p) as (m & E & _); [apply digits2_small; lia |].
    rewrite E. split; [discriminate | intros s; discriminate].
  - destruct (round_small true p) as (m & E & _); [apply digits2_small; lia |].
    rewrite E. split; [discriminate | intros s; discriminate].
Qed.

Lemma TimeClip_ofZ (z : Z) : Z.abs z <= 8640000000000000 -> TimeClip (ofZ z) = ofZ z.
Proof.
  intros Hz. assert (Hs : safe z) by (unfold safe; lia).
  pose proof (truncate_ofZ z Hs) as Ht.
  destruct (ofZ_not_special z Hs) as [Hn Hi].
  unfold TimeClip. destruct (ofZ z) as [s | s | | s m e] eqn:E.
  - rewrite Ht. replace (8640000000000000 <? Z.abs z) with false
      by (symmetry; apply Z.ltb_ge; lia). exact E.
  - now destruct (Hi s).
  - now destruct Hn.
  - rewrite Ht. replace (8640000000000000 <? Z.abs z) with false
      by (symmetry; apply Z.ltb_ge; lia). exact E.
Qed.

Lemma DateParse_day_number (s : string) :
  DateParse s = match day_number s with Some n => ofZ (n * msPerDay) | None => NaN end.
Proof.
  unfold DateParse, day_number.
  destruct (list_ascii_of_string s) as [| y1 [| y2 [| y3 [| y4 [| h1 [| m1 [| m2 [| h2 [| d1 [| d2 [| x l]]]]]]]]]]];
    try reflexivity.
  destruct (test_date s); [| reflexivity].
  cbn [andb]. now destruct (_ && _).
Qed.

Lemma day_number_shape (s : string) (n : Z) : day_number s = Some n -> test_date s = true.
Proof.
  unfold day_number.
  destruct (list_ascii_of_string s) as [| y1 [| y2 [| y3 [| y4 [| h1 [| m1 [| m2 [| h2 [| d1 [| d2 [| x l]]]]]]]]]]];
    try discriminate.
  destruct (test_date s); [reflexivity | discriminate].
Qed.

Lemma digit_range (c : ascii) : is_digit c = true -> 0 <= digit c <= 9.
Proof.
  unfold is_digit, in_range, digit. rewrite andb_true_iff, !Z.leb_le. lia.
Qed.

Lemma days_before_month_range (leap : bool) (m : Z) :
  0 <= days_before_month leap m <= 335.
Proof.
  unfold days_before_month. destruct leap;
    repeat match goal with |- context [?a =? ?b] => destruct (a =? b) end; lia.
Qed.

Lemma DayFromYear_range (y : Z) :
  0 <= y <= 9999 -> -719528 <= DayFromYear y <= 2932532.
Proof. intros Hy. unfold DayFromYear. Z.div_mod_to_equations. lia. Qed.

Lemma day_number_range (s : string) (n : Z) :
  day_number s = Some n -> -719528 <= n <= 2932897.
Proof.
  unfold day_number, test_date.
  destruct (list_ascii_of_string s) as [| y1 [| y2 [| y3 [| y4 [| h1 [| m1 [| m2 [| h2 [| d1 [| d2 [| x l]]]]]]]]]]];
    try discriminate.
  destruct (forallb is_digit [y1; y2; y3; y4; m1; m2; d1; d2]) eqn:Hdig; [| discriminate].
  cbn [andb].
  destruct ((code h1 =? 45) && (code h2 =? 45)); [| discriminate].
  cbn [andb].
  destruct (_ && _) eqn:Hv; [| discriminate]. intros [= <-].
  cbn [forallb] in Hdig. rewrite !andb_true_iff in Hdig.
  destruct Hdig as (Hy1 & Hy2 & Hy3 & Hy4 & Hm1 & Hm2 & Hd1 & Hd2 & _).
  apply digit_range in Hy1, Hy2, Hy3, Hy4, Hm1, Hm2, Hd1, Hd2.
  rewrite !andb_true_iff, !Z.leb_le in Hv.
  unfold MakeDay.
  pose proof (days_before_month_range
                (InLeapYear (digit y1 * 1000 + digit y2 * 100 + digit y3 * 10 + digit y4))
                (digit m1 * 10 + digit m2)).
  pose proof (DayFromYear_range
                (digit y1 * 1000 + digit y2 * 100 + digit y3 * 10 + digit y4)).
  lia.
Qed.

Lemma DateTime_day_number (s : string) (n : Z) :
  day_number s = Some n -> DateTime (Str s) = ofZ (n * msPerDay).
Proof.
  intros H. unfold DateTime. rewrite DateParse_day_number, H.
  apply TimeClip_ofZ. apply day_number_range in H. unfold msPerDay. lia.
Qed.

Lemma lt_ofZ (a b : Z) : safe a -> safe b -> lt (ofZ a) (ofZ b) = (a <? b).
Proof.
  intros Ha Hb. unfold lt, SFltb. rewrite SFcompare_ofZ by assumption.
  unfold Z.ltb. now destruct (a ?= b).
Qed.

Lemma le_ofZ (a b : Z) : safe a -> safe b -> le (ofZ a) (ofZ b) = (a <=? b).
Proof.
  intros Ha Hb. unfold le, SFleb. rewrite SFcompare_ofZ by assumption.
  unfold Z.leb. now destruct (a ?= b).
Qed.

Lemma dates_compare_by_day (row : Row) (f v a : string) (na nv : Z) :
  get row f = Str a -> day_number a = Some na -> day_number v = Some nv ->
  evaluate row (Condition f ">" v) = (nv <? na) /\
  evaluate row (Condition f ">=" v) = (nv <=? na) /\
  evaluate row (Condition f "<" v) = (na <? nv) /\
  evaluate row (Condition f "<=" v) = (na <=? nv).
Proof.
  intros Hg Ha Hv.
  assert (E : forall o, evaluate row (Condition f o v) =
                        compare o (Num (ofZ (na * msPerDay))) (Num (ofZ (nv * msPerDay)))).
  { intros o. cbn [evaluate]. rewrite Hg. cbn [ToString].
    rewrite (day_number_shape a na Ha), (day_number_shape v nv Hv). cbn [andb].
    now rewrite (DateTime_day_number a na Ha), (DateTime_day_number v nv Hv). }
  pose proof (day_number_range a na Ha) as Hra.
  pose proof (day_number_range v nv Hv) as Hrv.
  assert (Hsa : safe (na * msPerDay)) by (unfold safe, msPerDay; lia).
  assert (Hsv : safe (nv * msPerDay)) by (unfold safe, msPerDay; lia).
  rewrite !E. unfold compare. cbn [String.eqb Ascii.eqb Bool.eqb ToNumber].
  unfold gt, ge. rewrite !lt_ofZ, !le_ofZ by assumption.
  unfold msPerDay.
  repeat split.
  - destruct (Z.ltb_spec (nv * 86400000) (na * 86400000)), (Z.ltb_spec nv na); lia.
  - destruct (Z.leb_spec (nv * 86400000) (na * 86400000)), (Z.leb_spec nv na); lia.
  - destruct (Z.ltb_spec (na * 86400000) (nv * 86400000)), (Z.ltb_spec na nv); lia.
  - destruct (Z.leb_spec (na * 86400000) (nv * 86400000)), (Z.leb_spec na nv); lia.
Qed.

Lemma month_cases (m : Z) :
  1 <= m <= 12 ->
  m = 1 \/ m = 2 \/ m = 3 \/ m = 4 \/ m = 5 \/ m = 6 \/
  m = 7 \/ m = 8 \/ m = 9 \/ m = 10 \/ m = 11 \/ m = 12.
Proof. lia. Qed.

Lemma month_length_range (leap : bool) (m : Z) : 28 <= month_length leap m <= 31.
Proof.
  unfold month_length. destruct leap; destruct (m =? 2); try lia; destruct (_ || _); lia.
Qed.

(** The days before a month and the month itself fit in the year, and make
    up the days before the next month. *)
Lemma days_before_next (leap : bool) (m1 m2 : Z) :
  1 <= m1 -> m1 < m2 -> m2 <= 12 ->
  days_before_month leap m1 + month_length leap m1 <= days_before_month leap m2.
Proof.
  intros H1 H12 H2.
  destruct (month_cases m1 ltac:(lia)) as [-> | [-> | [-> | [-> | [-> | [-> | [-> | [-> | [-> | [-> | [-> | ->]]]]]]]]]]];
    destruct (month_cases m2 ltac:(lia)) as [-> | [-> | [-> | [-> | [-> | [-> | [-> | [-> | [-> | [-> | [-> | ->]]]]]]]]]]];
    try lia; destruct leap; vm_compute; intros H; discriminate H.
Qed.

Lemma days_in_year (leap : bool) (m : Z) :
  1 <= m <= 12 ->
  days_before_month leap m + month_length leap m <= 365 + (if leap then 1 else 0).
Proof.
  intros H.
  destruct (month_cases m H) as [-> | [-> | [-> | [-> | [-> | [-> | [-> | [-> | [-> | [-> | [-> | ->]]]]]]]]]]];
    destruct leap; vm_compute; intros H'; discriminate H'.
Qed.

Lemma DayFromYear_next (y : Z) :
  DayFromYear (y + 1) = DayFromYear y + 365 + (if InLeapYear y then 1 else 0).
Proof.
  unfold DayFromYear, InLeapYear.
  destruct (Z.eqb_spec (y mod 4) 0), (Z.eqb_spec (y mod 100) 0), (Z.eqb_spec (y mod 400) 0);
    cbn [negb andb orb]; Z.div_mod_to_equations; lia.
Qed.

Lemma DayFromYear_mono (y1 y2 : Z) : y1 <= y2 -> DayFromYear y1 <= DayFromYear y2.
Proof. intros H. unfold DayFromYear. Z.div_mod_to_equations. lia. Qed.

Lemma MakeDay_before (y1 m1 d1 y2 m2 d2 : Z) :
  real_date (y1, m1, d1) -> real_date (y2, m2, d2) ->
  before (y1, m1, d1) (y2, m2, d2) = true ->
  MakeDay y1 m1 d1 < MakeDay y2 m2 d2.
Proof.
  intros [Hm1 Hd1] [Hm2 Hd2]. unfold before, MakeDay.
  rewrite orb_true_iff, !andb_true_iff, orb_true_iff, !andb_true_iff,
    !Z.ltb_lt, !Z.eqb_eq.
  intros [Hy | [-> [Hm | [-> Hd]]]].
  - pose proof (days_in_year (InLeapYear y1) m1 Hm1).
    pose proof (DayFromYear_next y1).
    pose proof (DayFromYear_mono (y1 + 1) y2 ltac:(lia)).
    pose proof (days_before_month_range (InLeapYear y2) m2).
    lia.
  - pose proof (days_before_next (InLeapYear y2) m1 m2 ltac:(lia) Hm ltac:(lia)). lia.
  - lia.
Qed.

Lemma before_trichotomy (a b : Z * Z * Z) :
  before a b = true \/ a = b \/ before b a = true.
Proof.
  destruct a as [[y1 m1] d1], b as [[y2 m2] d2]. unfold before.
  destruct (Z.ltb_spec y1 y2); [now left |].
  destruct (Z.ltb_spec y2 y1); [right; right; reflexivity |].
  assert (y1 = y2) by lia. subst y2. rewrite Z.eqb_refl. cbn [orb andb].
  destruct (Z.ltb_spec m1 m2); [now left |].
  destruct (Z.ltb_spec m2 m1); [right; right; reflexivity |].
  assert (m1 = m2) by lia. subst m2. rewrite Z.eqb_refl. cbn [orb andb].
  destruct (Z.ltb_spec d1 d2); [now left |].
  destruct (Z.ltb_spec d2 d1); [right; right; reflexivity |].
  right. left. f_equal. lia.
Qed.

Lemma before_irrefl (a b : Z * Z * Z) : before a b = true -> before b a = false.
Proof.
  destruct a as [[y1 m1] d1], b as [[y2 m2] d2]. unfold before.
  rewrite orb_true_iff, !andb_true_iff, orb_true_iff, !andb_true_iff,
    !Z.ltb_lt, !Z.eqb_eq.
  intros H.
  apply orb_false_iff. split; [apply Z.ltb_ge; lia |].
  apply andb_false_iff.
  destruct (Z.eqb_spec y2 y1); [right | now left].
  apply orb_false_iff. split; [apply Z.ltb_ge; lia |].
  apply andb_false_iff.
  destruct (Z.eqb_spec m2 m1); [right; apply Z.ltb_ge; lia | now left].
Qed.

Lemma MakeDay_order (a b : Z * Z * Z) :
  real_date a -> real_date b ->
  (MakeDay a.1.1 a.1.2 a.2 <? MakeDay b.1.1 b.1.2 b.2) = before a b.
Proof.
  intros Ha Hb.
  destruct (before_trichotomy a b) as [H | [-> | H]].
  - rewrite H. destruct a as [[y1 m1] d1], b as [[y2 m2] d2]. cbn [fst snd].
    apply Z.ltb_lt. now apply MakeDay_before.
  - rewrite Z.ltb_irrefl. symmetry.
    destruct b as [[y m] d]. unfold before. rewrite !Z.ltb_irrefl, !Z.eqb_refl. reflexivity.
  - rewrite (before_irrefl b a H).
    destruct a as [[y1 m1] d1], b as [[y2 m2] d2]. cbn [fst snd].
    apply Z.ltb_ge. apply Z.lt_le_incl. now apply MakeDay_before.
Qed.

Lemma calendar_day_number (s : string) (t : Z * Z * Z) :
  calendar_date s = Some t ->
  day_number s = Some (MakeDay t.1.1 t.1.2 t.2) /\ real_date t.
Proof.
  unfold calendar_date, day_number.
  destruct (list_ascii_of_string s) as [| y1 [| y2 [| y3 [| y4 [| h1 [| m1 [| m2 [| h2 [| d1 [| d2 [| x l]]]]]]]]]]];
    try discriminate.
  destruct (test_date s); [| discriminate]. cbn [andb].
  destruct (_ && _) eqn:Hv in |- *; [| discriminate]. intros [= <-]. cbn [fst snd].
  rewrite !andb_true_iff, !Z.leb_le in Hv. destruct Hv as (((H1 & H2) & H3) & H4).
  pose proof (month_length_range
                (InLeapYear (digit y1 * 1000 + digit y2 * 100 + digit y3 * 10 + digit y4))
                (digit m1 * 10 + digit m2)).
  split; [| unfold real_date; lia].
  replace ((1 <=? digit m1 * 10 + digit m2) && (digit m1 * 10 + digit m2 <=? 12)
           && (1 <=? digit d1 * 10 + digit d2) && (digit d1 * 10 + digit d2 <=? 31))
    with true; [reflexivity |].
  symmetry. rewrite !andb_true_iff, !Z.leb_le. lia.
Qed.

(** X17: when the record's value and the condition's value are both dates
    of the calendar written YYYY-MM-DD, the four relational operators order
    them as the calendar does: by year, then month, then day. *)
Theorem dates_order (row : Row) (f v a : string) (ta tv : Z * Z * Z) :
  get row f = Str a -> calendar_date a = Some ta -> calendar_date v = Some tv ->
  evaluate row (Condition f ">" v) = before tv ta /\
  evaluate row (Condition f ">=" v) = negb (before ta tv) /\
  evaluate row (Condition f "<" v) = before ta tv /\
  evaluate row (Condition f "<=" v) = negb (before tv ta).
Proof.
  intros Hg Ha Hv.
  destruct (calendar_day_number a ta Ha) as [Hna Hra].
  destruct (calendar_day_number v tv Hv) as [Hnv Hrv].
  destruct (dates_compare_by_day row f v a _ _ Hg Hna Hnv) as (Hgt & Hge & Hlt & Hle).
  rewrite Hgt, Hge, Hlt, Hle.
  rewrite <- (MakeDay_order ta tv Hra Hrv), <- (MakeDay_order tv ta Hrv Hra).
  repeat split; try reflexivity.
  - rewrite Z.leb_antisym. reflexivity.
  - rewrite Z.leb_antisym. reflexivity.
Qed.

Lemma dates_order_witness :
  evaluate (<["date" := Str "2025-03-09"]> ∅) (Condition "date" ">" "2025-02-11") = true /\
  evaluate (<["date" := Str "2024-02-29"]> ∅) (Condition "date" "<" "2024-02-28") = false.
Proof.
  split.
  - exact (proj1 (dates_order (<["date" := Str "2025-03-09"]> ∅) "date" "2025-02-11"
                    "2025-03-09" (2025, 3, 9) (2025, 2, 11) eq_refl eq_refl eq_refl)).
  - exact (proj1 (proj2 (proj2
             (dates_order (<["date" := Str "2024-02-29"]> ∅) "date" "2024-02-28"
                "2024-02-29" (2024, 2, 29) (2024, 2, 28) eq_refl eq_refl eq_refl)))).
Defined.

Lemma digit_not_space (c : ascii) : is_digit c = true -> is_space c = false.
Proof.
  unfold is_digit, is_space, in_range. rewrite andb_true_iff, !Z.leb_le. intros H.
  rewrite !orb_false_iff, andb_false_iff, !Z.leb_gt, !Z.eqb_neq. lia.
Qed.

Lemma trimEnd_digits (s : string) :
  forallb is_digit (list_ascii_of_string s) = true -> trimEnd s = s.
Proof.
  induction s as [| c s IH]; [reflexivity |].
  cbn [list_ascii_of_string forallb]. rewrite andb_true_iff. intros [Hc Hs].
  cbn [trimEnd]. rewrite (IH Hs). destruct s; [| reflexivity].
  now rewrite (digit_not_space c Hc).
Qed.

Lemma trim_numeral (s : string) : numeral s = true -> trim s = s.
Proof.
  unfold numeral, trim. rewrite andb_true_iff. intros [Ht Hd].
  destruct s as [| c s]; [discriminate Ht |].
  assert (Hc : is_space c = false).
  { cbn [list_ascii_of_string forallb] in Hd. apply andb_true_iff in Hd.
    now apply digit_not_space. }
  cbn [trimStart]. rewrite Hc. now apply trimEnd_digits.
Qed.

Lemma read_digits_all (s : string) (acc n : Z) :
  forallb is_digit (list_ascii_of_string s) = true ->
  read_digits 10 dec_val acc n s =
    (fold_left (fun acc c => acc * 10 + digit c) (list_ascii_of_string s) acc,
     n + Z.of_nat (String.length s), EmptyString).
Proof.
  revert acc n. induction s as [| c s IH]; intros acc n.
  - intros _. cbn. now rewrite Z.add_0_r.
  - cbn [list_ascii_of_string forallb]. rewrite andb_true_iff. intros [Hc Hs].
    cbn [read_digits]. unfold dec_val at 1. rewrite Hc.
    rewrite (IH _ _ Hs). cbn [fold_left String.length]. unfold digit. f_equal. f_equal. lia.
Qed.

Lemma decimal_nonneg (s : string) :
  forallb is_digit (list_ascii_of_string s) = true -> 0 <= decimal s.
Proof.
  unfold decimal.
  assert (G : forall l a, 0 <= a -> forallb is_digit l = true ->
              0 <= fold_left (fun acc c => acc * 10 + digit c) l a).
  { induction l as [| c l IH]; intros a Ha; [intros _; exact Ha |].
    cbn [forallb fold_left]. rewrite andb_true_iff. intros [Hc Hl].
    apply IH; [| exact Hl]. apply digit_range in Hc. lia. }
  apply G. lia.
Qed.

Lemma ofDecimal_integer (m : Z) : 0 <= m -> ofDecimal false m (0 - 0) = ofZ m.
Proof.
  intros Hm. unfold ofDecimal, ofZ.
  destruct (Z.leb_spec m 0) as [H0 | H0].
  - now replace m with 0 by lia.
  - cbn [Z.sub Z.opp Z.add Z.leb Z.compare]. now rewrite Z.mul_1_r.
Qed.

Lemma digit_not_letter (c : ascii) (k : Z) :
  is_digit c = true -> ~ 48 <= k <= 57 -> (code c =? k) = false.
Proof.
  unfold is_digit, in_range. rewrite andb_true_iff, !Z.leb_le. intros H Hk.
  apply Z.eqb_neq. lia.
Qed.

Lemma parse_unsigned_numeral (s : string) :
  numeral s = true -> parse_unsigned false s = ofZ (decimal s).
Proof.
  unfold numeral. rewrite andb_true_iff. intros [Ht Hd].
  unfold parse_unsigned.
  assert (Hinf : String.eqb s "Infinity" = false).
  { destruct s as [| c s]; [discriminate Ht |].
    cbn [list_ascii_of_string forallb] in Hd. apply andb_true_iff in Hd. destruct Hd as [Hc _].
    cbn [String.eqb]. destruct (Ascii.eqb_spec c "I") as [-> | Hne]; [discriminate Hc | reflexivity]. }
  rewrite Hinf, (read_digits_all s 0 0 Hd). cbv iota beta.
  replace (0 <? 0 + Z.of_nat (String.length s) + 0) with true
    by (symmetry; apply Z.ltb_lt; destruct s; [discriminate Ht | cbn [String.length]; lia]).
  cbn [parse_exponent]. apply ofDecimal_integer. now apply decimal_nonneg.
Qed.

Lemma StringToNumber_numeral (s : string) :
  numeral s = true -> StringToNumber s = ofZ (decimal s).
Proof.
  intros Hn. rewrite <- (parse_unsigned_numeral s Hn).
  unfold StringToNumber. rewrite (trim_numeral s Hn).
  unfold numeral in Hn. apply andb_true_iff in Hn. destruct Hn as [Ht Hd].
  destruct s as [| c0 t]; [discriminate Ht |].
  cbn [list_ascii_of_string forallb] in Hd. apply andb_true_iff in Hd.
  destruct Hd as [Hc0 Hd].
  destruct c0 as [[] [] [] [] [] [] [] []]; try discriminate Hc0; try reflexivity.
  destruct t as [| c t]; [reflexivity |].
  cbn [list_ascii_of_string forallb] in Hd. apply andb_true_iff in Hd. destruct Hd as [Hc _].
  rewrite !(digit_not_letter c) by (try exact Hc; lia). reflexivity.
Qed.

Lemma test_date_numeral (s : string) :
  forallb is_digit (list_ascii_of_string s) = true -> test_date s = false.
Proof.
  unfold test_date.
  destruct (list_ascii_of_string s) as [| y1 [| y2 [| y3 [| y4 [| h1 [| m1 [| m2 [| h2 [| d1 [| d2 [| x l]]]]]]]]]]];
    try reflexivity.
  cbn [forallb]. rewrite !andb_true_iff. intros (_ & _ & _ & _ & Hh & _).
  rewrite (digit_not_letter h1 45 Hh) by lia. now rewrite andb_false_r.
Qed.

Lemma holds_integer_number (l : value) (n : Z) :
  holds_integer l n -> ToNumber l = ofZ n.
Proof.
  intros [-> | (a & -> & Hn & <-)]; [reflexivity |]. now apply StringToNumber_numeral.
Qed.

(** X18: when the record holds an integer below 2^53, as a Number or
    written in digits, and the condition's value is a string of digits
    writing an integer below 2^53, the four relational operators compare the
    two integers exactly. *)
Theorem integers_order (row : Row) (f v : string) (n : Z) :
  holds_integer (get row f) n -> safe n ->
  numeral v = true -> safe (decimal v) ->
  evaluate row (Condition f ">" v) = (decimal v <? n) /\
  evaluate row (Condition f ">=" v) = (decimal v <=? n) /\
  evaluate row (Condition f "<" v) = (n <? decimal v) /\
  evaluate row (Condition f "<=" v) = (n <=? decimal v).
Proof.
  intros Hl Hn Hv Hk.
  assert (Hshape : test_date v = false).
  { apply test_date_numeral. unfold numeral in Hv. now apply andb_true_iff in Hv. }
  assert (E : forall o, evaluate row (Condition f o v) = compare o (get row f) (Str v)).
  { intros o. cbn [evaluate ToString]. now rewrite Hshape, andb_false_r. }
  rewrite !E. unfold compare. cbn [String.eqb Ascii.eqb Bool.eqb].
  rewrite (holds_integer_number _ n Hl). cbn [ToNumber].
  rewrite (StringToNumber_numeral v Hv).
  unfold gt, ge. now rewrite !lt_ofZ, !le_ofZ by assumption.
Qed.

Lemma integers_order_witness :
  evaluate (<["age" := Num (ofZ 31)]> ∅) (Condition "age" ">" "30") = true /\
  evaluate (<["age" := Str "0031"]> ∅) (Condition "age" "<=" "30") = false.
Proof.
  assert (H31 : safe 31) by reflexivity.
  assert (H30 : safe (decimal "30")) by reflexivity.
  split.
  - exact (proj1 (integers_order (<["age" := Num (ofZ 31)]> ∅) "age" "30" 31
                    (or_introl eq_refl) H31 eq_refl H30)).
  - assert (Hh : holds_integer (get (<["age" := Str "0031"]> ∅) "age") 31)
      by (right; exists "0031"; repeat split).
    exact (proj2 (proj2 (proj2
             (integers_order (<["age" := Str "0031"]> ∅) "age" "30" 31 Hh H31 eq_refl H30)))).
Defined.
